(** * Disk layer of the sdx kernel: sector translation and partition lifecycle

    Shallow embedding of [kernel/core/disk.c].  C pointers are addresses
    ([ptr]) with [None] for [NULL]; the structures live in finite maps that
    play the role of the kernel heap; every function is a computation in a
    small state monad whose outcome records a normal return, a call of
    [panic], undefined behaviour of the C program, or a loop that outran
    its iteration bound. *)

From stdpp Require Import gmap list.
From Stdlib Require Import ZArith Lia.
From Stdlib.Strings Require Import Byte.

Local Open Scope Z_scope.

(** ** Data model *)

(** An address; [option ptr] is a C pointer, [None] being [NULL]. *)
Abbreviation ptr := N (only parsing).

(** Modelled from the spec: the operations of [disk_op_t] ([core/disk.h] is
    not part of the sources; section 6 lists read, write and info-query). *)
Inductive disk_op_t := DISK_OP_READ | DISK_OP_WRITE | DISK_OP_INFO.

(** The controller kind.  Only [DISK_CONTROLLER_AHCI] has a case in the
    [switch] of [__disk_do_raw]; every other value of the field takes the
    [default] branch. *)
Inductive disk_controller_t :=
| DISK_CONTROLLER_AHCI
| DISK_CONTROLLER_OTHER (v : Z).

(** [disk_t], with the fields [disk.c] reads and writes. *)
Record disk_t := mk_disk {
  disk_controller : disk_controller_t;
  disk_data : option ptr;
  disk_sector_size : Z;
  disk_available : bool;
  disk_parts : option ptr;
  disk_part_count : Z;
}.

(** [disk_part_t], a node of the singly linked partition list of a disk. *)
Record disk_part_t := mk_part {
  part_start : Z;
  part_size : Z;
  part_available : bool;
  part_disk : option ptr;
  part_next : option ptr;
}.

Inductive vfs_type_t := VFS_TYPE_DISK | VFS_TYPE_OTHER (v : Z).

(** [vfs_t], with the two fields [__disk_part_find_vfs] inspects. *)
Record vfs_t := mk_vfs {
  vfs_type : vfs_type_t;
  vfs_type_data : option ptr;
}.

(** Byte memory seen by the transfer functions: the caller's buffer, the
    one-sector local array [cb] of [__disk_do_size], and the medium behind
    the controller. *)
Inductive region := Caller | Scratch | Device.

(** A [uint8_t *]: [NULL], or an offset into a region. *)
Definition bufptr := option (region * Z).

Definition iomem := region -> Z -> byte.

(** What a run leaves behind, in call order. *)
Inductive event :=
| EvRaw (op : disk_op_t) (lba sector_count : Z) (buf : bufptr)
| EvCopy (dst src : bufptr) (n : Z)
| EvVfsRegister (part : ptr) (handle : ptr)
| EvVfsUnregister (handle : ptr).

Record world := mk_world {
  disks : gmap N disk_t;
  parts : gmap N disk_part_t;
  vfs_list : list (N * vfs_t);
  io : iomem;
  trace : list event;
}.

#[global] Instance disk_op_eq_dec : EqDecision disk_op_t.
Proof. solve_decision. Defined.
#[global] Instance disk_controller_eq_dec : EqDecision disk_controller_t.
Proof. solve_decision. Defined.
#[global] Instance vfs_type_eq_dec : EqDecision vfs_type_t.
Proof. solve_decision. Defined.
#[global] Instance region_eq_dec : EqDecision region.
Proof. solve_decision. Defined.

(** ** The monad *)

Inductive outcome (A : Type) :=
| Ret (a : A)
| Panic
| Undef
| NoFuel.
Arguments Ret {A} a.
Arguments Panic {A}.
Arguments Undef {A}.
Arguments NoFuel {A}.

Definition M (A : Type) := world -> outcome A * world.

Definition ret {A} (a : A) : M A := fun w => (Ret a, w).

Definition bind {A B} (m : M A) (k : A -> M B) : M B :=
  fun w =>
    match m w with
    | (Ret a, w1) => k a w1
    | (Panic, w1) => (Panic, w1)
    | (Undef, w1) => (Undef, w1)
    | (NoFuel, w1) => (NoFuel, w1)
    end.

Notation "'let*' x ':=' m 'in' k" := (bind m (fun x => k))
  (at level 10, x name, m at level 100, k at level 200).
Notation "'run' m 'in' k" := (bind m (fun _ => k))
  (at level 10, m at level 100, k at level 200).

Definition undef {A} : M A := fun w => (Undef, w).
Definition get : M world := fun w => (Ret w, w).

(** Modelled from the spec: [panic] ([util/panic.h] is not part of the
    sources) halts the system; nothing after the call runs. *)
Definition panic {A} : M A := fun w => (Panic, w).

Definition logged (e : event) (w : world) : world :=
  mk_world (disks w) (parts w) (vfs_list w) (io w) (trace w ++ [e]).

Definition log (e : event) : M unit := fun w => (Ret tt, logged e w).

Definition set_io (m : iomem) (w : world) : world :=
  mk_world (disks w) (parts w) (vfs_list w) m (trace w).

Definition set_disks (ds : gmap N disk_t) (w : world) : world :=
  mk_world ds (parts w) (vfs_list w) (io w) (trace w).

Definition set_parts (ps : gmap N disk_part_t) (w : world) : world :=
  mk_world (disks w) ps (vfs_list w) (io w) (trace w).

Definition set_vfs (vs : list (N * vfs_t)) (w : world) : world :=
  mk_world (disks w) (parts w) vs (io w) (trace w).

(** [*disk]: reading through [NULL] or a dangling pointer is undefined. *)
Definition load_disk (disk : option ptr) : M disk_t :=
  fun w =>
    match disk with
    | Some a => match disks w !! a with
                | Some d => (Ret d, w)
                | None => (Undef, w)
                end
    | None => (Undef, w)
    end.

Definition load_part (part : option ptr) : M disk_part_t :=
  fun w =>
    match part with
    | Some a => match parts w !! a with
                | Some p => (Ret p, w)
                | None => (Undef, w)
                end
    | None => (Undef, w)
    end.

(** ** 64-bit arithmetic *)

Definition wrap64 (x : Z) : Z := x mod 2 ^ 64.

(** Modelled from the spec: [div_floor] ([util/math.h] is not part of the
    sources) is [floor(size / sector_size)]; a zero divisor is undefined. *)
Definition div_floor (a b : Z) : M Z :=
  if b =? 0 then undef else ret (a / b).

(** The C operator [%] on unsigned operands. *)
Definition umod (a b : Z) : M Z :=
  if b =? 0 then undef else ret (a mod b).

(** [buf + n] *)
Definition buf_add (buf : bufptr) (n : Z) : bufptr :=
  match buf with
  | Some (r, o) => Some (r, o + n)
  | None => None
  end.

Definition copy_bytes (dr : region) (doff : Z) (sr : region) (soff : Z) (n : Z)
    (m : iomem) : iomem :=
  fun r i =>
    if decide (r = dr) then
      if (doff <=? i) && (i <? doff + n) then m sr (soff + (i - doff)) else m r i
    else m r i.

(** [memcpy(dst, src, n)] *)
Definition memcpy (dst src : bufptr) (n : Z) : M unit :=
  run log (EvCopy dst src n) in
  match dst, src with
  | Some (dr, doff), Some (sr, soff) =>
      fun w => (Ret tt, set_io (copy_bytes dr doff sr soff n (io w)) w)
  | _, _ => if n =? 0 then ret tt else undef
  end.

(** Field updates through a pointer. *)
Definition modify_disk (disk : option ptr) (f : disk_t -> disk_t) : M unit :=
  let* d := load_disk disk in
  fun w =>
    match disk with
    | Some a => (Ret tt, set_disks (<[a := f d]> (disks w)) w)
    | None => (Undef, w)
    end.

Definition modify_part (part : option ptr) (f : disk_part_t -> disk_part_t) : M unit :=
  let* p := load_part part in
  fun w =>
    match part with
    | Some a => (Ret tt, set_parts (<[a := f p]> (parts w)) w)
    | None => (Undef, w)
    end.

Definition set_disk_available (b : bool) (d : disk_t) : disk_t :=
  mk_disk (disk_controller d) (disk_data d) (disk_sector_size d) b
          (disk_parts d) (disk_part_count d).

Definition set_disk_parts (p : option ptr) (d : disk_t) : disk_t :=
  mk_disk (disk_controller d) (disk_data d) (disk_sector_size d) (disk_available d)
          p (disk_part_count d).

(** The width of [part_count] is declared in [core/disk.h]; the counter is
    kept as an integer, without wrap-around. *)
Definition set_disk_part_count (n : Z) (d : disk_t) : disk_t :=
  mk_disk (disk_controller d) (disk_data d) (disk_sector_size d) (disk_available d)
          (disk_parts d) n.

Definition set_part_available (b : bool) (p : disk_part_t) : disk_part_t :=
  mk_part (part_start p) (part_size p) b (part_disk p) (part_next p).

Definition set_part_next (n : option ptr) (p : disk_part_t) : disk_part_t :=
  mk_part (part_start p) (part_size p) (part_available p) (part_disk p) n.

Definition DISK_DEFAULT_SECTOR_SIZE : Z := 512.

(** The structure [disk_add] fills before it links it into the registry:
    zeroed, then [controller], [data] and [sector_size] assigned. *)
Definition disk_add_struct (controller : disk_controller_t) (data : option ptr) : disk_t :=
  mk_disk controller data DISK_DEFAULT_SECTOR_SIZE false None 0.

(** Every walk over a partition list is bounded by the number of nodes on
    the heap: a list that is not cyclic cannot be longer. *)
Definition heap_bound (w : world) : nat := S (size (parts w)).

(** ** Mount registry ([fs/vfs.h], not part of the sources) *)

(** Modelled from the spec: [vfs_next] enumerates the registry in
    registration order, so the loop of [__disk_part_find_vfs] is a search
    for the first entry of type [VFS_TYPE_DISK] whose [type_data] is the
    partition. *)
Fixpoint find_vfs (part : ptr) (vs : list (N * vfs_t)) : option ptr :=
  match vs with
  | [] => None
  | (h, v) :: vs' =>
      if decide (vfs_type v = VFS_TYPE_DISK /\ vfs_type_data v = Some part)
      then Some h
      else find_vfs part vs'
  end.

Definition __disk_part_find_vfs (part : ptr) : M (option ptr) :=
  fun w => (Ret (find_vfs part (vfs_list w)), w).

Definition fresh_handle (vs : list (N * vfs_t)) : N :=
  N.succ (foldr N.max 0%N (map fst vs)).

(** Modelled from the spec: [vfs_register(kind, partition_handle)] adds a
    mount for the partition to the registry. *)
Definition vfs_register (type : vfs_type_t) (part : ptr) : M unit :=
  fun w =>
    let h := fresh_handle (vfs_list w) in
    log (EvVfsRegister part h)
        (set_vfs (vfs_list w ++ [(h, mk_vfs type (Some part))]) w).

(** Modelled from the spec: [vfs_unregister(mount_handle)] removes that
    mount from the registry. *)
Definition vfs_unregister (cur : ptr) : M unit :=
  fun w =>
    log (EvVfsUnregister cur)
        (set_vfs (filter (fun e => fst e <> cur) (vfs_list w)) w).

(** ** Controller dispatch and sector translation *)

Section Model.

(** The primitive of the AHCI driver ([core/ahci.h], not part of the
    sources): [ahci_port_do(data, op, offset, sector_count, buf)] acts on
    byte memory and answers success or failure. *)
Variable ahci_port_do :
  option ptr -> disk_op_t -> Z -> Z -> bufptr -> iomem -> bool * iomem.

Definition call_port_do (data : option ptr) (op : disk_op_t) (lba sector_count : Z)
    (buf : bufptr) : M bool :=
  fun w =>
    let '(b, m) := ahci_port_do data op lba sector_count buf (io w) in
    (Ret b, set_io m w).

Definition __disk_do_raw (disk : option ptr) (op : disk_op_t) (lba sector_count : Z)
    (buf : bufptr) : M bool :=
  run log (EvRaw op lba sector_count buf) in
  let* d := load_disk disk in
  match disk_controller d with
  | DISK_CONTROLLER_AHCI =>
      call_port_do (disk_data d) op lba sector_count buf
  | _ => panic
  end.

(** The [while (size != rem)] loop of [__disk_do_size].  [None] is the
    [return false] inside the loop, [Some buf_offset] is leaving the loop
    with that value of [buf_offset]. *)
Fixpoint disk_do_size_loop (fuel : nat) (disk : option ptr) (op : disk_op_t)
    (lba rem : Z) (buf : bufptr) (size buf_offset : Z) : M (option Z) :=
  match fuel with
  | O => fun w => (NoFuel, w)
  | S fuel' =>
      if size =? rem then ret (Some buf_offset)
      else
        let* ok := __disk_do_raw disk op lba 1 (buf_add buf buf_offset) in
        if negb ok then ret None
        else
          let* d := load_disk disk in
          disk_do_size_loop fuel' disk op lba rem buf
            (wrap64 (size - disk_sector_size d))
            (wrap64 (buf_offset + disk_sector_size d))
  end.

(** The statements under the label [do_copy]. *)
Definition disk_do_size_copy (disk : option ptr) (op : disk_op_t) (lba rem : Z)
    (buf : bufptr) (buf_offset : Z) : M bool :=
  if rem =? 0 then ret true
  else
    let cb : bufptr := Some (Scratch, 0) in
    let* r := __disk_do_raw disk op lba 1 cb in
    run memcpy (buf_add buf buf_offset) cb rem in
    ret r.

(** The whole sectors of an unaligned transfer: [goto do_copy] at once
    for less than a sector, the loop otherwise.  The loop is bounded by
    [sector_count] rounds and the test that ends it. *)
Definition disk_do_size_whole (disk : option ptr) (op : disk_op_t) (lba size : Z)
    (buf : bufptr) (sector_count rem : Z) : M (option Z) :=
  let* d := load_disk disk in
  if size <? disk_sector_size d then ret (Some 0)
  else disk_do_size_loop (S (Z.to_nat sector_count)) disk op lba rem buf size 0.

Definition __disk_do_size (disk : option ptr) (op : disk_op_t) (lba size : Z)
    (buf : bufptr) : M bool :=
  let* d := load_disk disk in
  let* sector_count := div_floor size (disk_sector_size d) in
  let* rem := umod size (disk_sector_size d) in
  if rem =? 0 then __disk_do_raw disk op lba sector_count buf
  else
    let* r := disk_do_size_whole disk op lba size buf sector_count rem in
    match r with
    | None => ret false
    | Some buf_offset => disk_do_size_copy disk op lba rem buf buf_offset
    end.

Definition disk_do (disk : option ptr) (op : disk_op_t) (offset size : Z)
    (buf : bufptr) : M bool :=
  __disk_do_size disk op offset size buf.


(** ** Partition lifecycle *)

(** The kernel allocator ([mm/vmm.h], not part of the sources): the address
    of the new block, or [NULL]. *)
Variable vmm_alloc : world -> option ptr.

Definition vmm_free (p : ptr) : M unit :=
  fun w => (Ret tt, set_parts (delete p (parts w)) w).

Definition disk_part_next (disk : option ptr) (part : option ptr) : M (option ptr) :=
  match part with
  | None => let* d := load_disk disk in ret (disk_parts d)
  | Some _ => let* p := load_part part in ret (part_next p)
  end.

(** The macro [disk_part_match] of [disk_part_add]. *)
Definition disk_part_match (start size : Z) (p1 : disk_part_t) : bool :=
  (part_start p1 =? start) && (part_size p1 =? size).

(** Modelled from the spec: [slist_find] ([util/list.h] is not part of the
    sources) yields the first entry of the list that satisfies the match
    macro, and leaves the result [NULL] when there is none. *)
Fixpoint slist_find (fuel : nat) (matches : disk_part_t -> bool) (cur : option ptr)
    : M (option ptr) :=
  match fuel with
  | O => fun w => (NoFuel, w)
  | S fuel' =>
      match cur with
      | None => ret None
      | Some _ =>
          let* p := load_part cur in
          if matches p then ret cur else slist_find fuel' matches (part_next p)
      end
  end.

(** The last node of a list that starts at [cur]. *)
Fixpoint slist_last (fuel : nat) (cur : ptr) : M ptr :=
  match fuel with
  | O => fun w => (NoFuel, w)
  | S fuel' =>
      let* p := load_part (Some cur) in
      match part_next p with
      | None => ret cur
      | Some n => slist_last fuel' n
      end
  end.

(** Modelled from the spec: [slist_add] ([util/list.h] is not part of the
    sources) appends the entry to the list, which keeps insertion order. *)
Definition slist_add (disk : option ptr) (new : ptr) : M unit :=
  let* d := load_disk disk in
  match disk_parts d with
  | None => modify_disk disk (set_disk_parts (Some new))
  | Some first =>
      let* w := get in
      let* last := slist_last (heap_bound w) first in
      modify_part (Some last) (set_part_next (Some new))
  end.

Definition disk_part_add (disk : option ptr) (start size : Z) : M (option ptr) :=
  match disk with
  | None => ret None
  | Some _ =>
      let* d := load_disk disk in
      let* w := get in
      let* new := slist_find (heap_bound w) (disk_part_match start size) (disk_parts d) in
      match new with
      | Some _ => ret new
      | None =>
          let* w := get in
          match vmm_alloc w with
          | None => ret None
          | Some a =>
              (* bzero, then the three assignments *)
              run (fun w => (Ret tt, set_parts (<[a := mk_part start size false disk None]> (parts w)) w)) in
              run slist_add disk a in
              run modify_disk disk (fun d => set_disk_part_count (disk_part_count d + 1) d) in
              ret (Some a)
          end
      end
  end.

Fixpoint disk_part_block_loop (fuel : nat) (trav : option ptr) : M unit :=
  match fuel with
  | O => fun w => (NoFuel, w)
  | S fuel' =>
      match trav with
      | None => ret tt
      | Some _ =>
          run modify_part trav (set_part_available false) in
          let* p := load_part trav in
          disk_part_block_loop fuel' (part_next p)
      end
  end.

Definition __disk_part_block (disk : option ptr) : M unit :=
  match disk with
  | None => ret tt
  | Some _ =>
      let* d := load_disk disk in
      let* w := get in
      disk_part_block_loop (heap_bound w) (disk_parts d)
  end.

Fixpoint disk_part_clear_loop (fuel : nat) (disk : option ptr) (trav pre : option ptr)
    : M unit :=
  match fuel with
  | O => fun w => (NoFuel, w)
  | S fuel' =>
      match trav with
      | None => ret tt
      | Some t =>
          let* cur := __disk_part_find_vfs t in
          let* p := load_part trav in
          if part_available p then
            run (match cur with
                 | None => vfs_register VFS_TYPE_DISK t
                 | Some _ => ret tt
                 end) in
            let* p := load_part trav in
            disk_part_clear_loop fuel' disk (part_next p) trav
          else
            run (match cur with
                 | Some c => vfs_unregister c
                 | None => ret tt
                 end) in
            run modify_disk disk (fun d => set_disk_part_count (disk_part_count d - 1) d) in
            match pre with
            | None =>
                let* p := load_part trav in
                run modify_disk disk (set_disk_parts (part_next p)) in
                run vmm_free t in
                let* d := load_disk disk in
                disk_part_clear_loop fuel' disk (disk_parts d) pre
            | Some _ =>
                let* p := load_part trav in
                run modify_part pre (set_part_next (part_next p)) in
                run vmm_free t in
                let* q := load_part pre in
                disk_part_clear_loop fuel' disk (part_next q) pre
            end
      end
  end.

Definition disk_part_clear (disk : option ptr) : M unit :=
  match disk with
  | None => ret tt
  | Some _ =>
      let* d := load_disk disk in
      let* w := get in
      disk_part_clear_loop (heap_bound w) disk (disk_parts d) None
  end.

(** The build option [CONFIG_CORE_GPT] ([config.h]) and the two table
    parsers ([core/gpt.h], [core/mbr.h]), none of them part of the sources. *)
Variable CONFIG_CORE_GPT : bool.
Variable gpt_load : option ptr -> M bool.
Variable mbr_load : option ptr -> M bool.

(** The table-parse step of [disk_scan]: [true] is the jump to [done]. *)
Definition disk_scan_parse (disk : option ptr) : M bool :=
  let* gpt := (if CONFIG_CORE_GPT then gpt_load disk else ret false) in
  if gpt then ret true
  else
    let* mbr := mbr_load disk in
    if mbr then ret true else ret false.

Definition disk_scan (disk : option ptr) : M bool :=
  run modify_disk disk (set_disk_available false) in
  run __disk_part_block disk in
  let* info := disk_do disk DISK_OP_INFO 0 0 None in
  if negb info then ret false
  else
    let* parsed := disk_scan_parse disk in
    if negb parsed then ret false
    else
      run disk_part_clear disk in
      run modify_disk disk (set_disk_available true) in
      ret true.

End Model.

(** ** Simulated collaborators

    Concrete stand-ins for the code outside [disk.c], used to run the model:
    a controller with 512-byte sectors, an allocator and two table parsers. *)

(** Reads copy [sector_count] sectors from the medium to the buffer, writes
    copy them from the buffer to the medium; a transfer that passes the end
    of the medium, or one through [NULL], fails.  Info queries succeed. *)
Definition sim_port_do (capacity : Z) (data : option ptr) (op : disk_op_t)
    (lba sector_count : Z) (buf : bufptr) (m : iomem) : bool * iomem :=
  match op, buf with
  | DISK_OP_INFO, _ => (true, m)
  | DISK_OP_READ, Some (r, o) =>
      if lba + sector_count <=? capacity
      then (true, copy_bytes r o Device (lba * 512) (sector_count * 512) m)
      else (false, m)
  | DISK_OP_WRITE, Some (r, o) =>
      if lba + sector_count <=? capacity
      then (true, copy_bytes Device (lba * 512) r o (sector_count * 512) m)
      else (false, m)
  | _, None => (false, m)
  end.

(** A controller on which every request fails. *)
Definition broken_port_do (data : option ptr) (op : disk_op_t)
    (lba sector_count : Z) (buf : bufptr) (m : iomem) : bool * iomem :=
  (false, m).

(** An allocator that hands out the address after the highest live node. *)
Definition sim_vmm_alloc (w : world) : option ptr :=
  Some (N.succ (foldr N.max 0%N (map fst (map_to_list (parts w))))).

(** Caller bytes are 0x01, the local array holds 0xff, the medium 0x00. *)
Definition sim_io : iomem :=
  fun r _ => match r with Caller => x01 | Scratch => xff | Device => x00 end.

Definition sim_disk : disk_t :=
  mk_disk DISK_CONTROLLER_AHCI (Some 7%N) 512 false None 0.

(** One AHCI disk at address 1, no partitions, no mounts. *)
Definition sim_world : world :=
  mk_world {[ 1%N := sim_disk ]} ∅ [] sim_io [].

(** ** Well-formed partition lists *)

(** [is_list h p l]: following [next] from [p] on the heap [h] visits the
    nodes [l], in this order, and ends in [NULL]. *)
Fixpoint is_list (h : gmap N disk_part_t) (p : option ptr) (l : list N) : Prop :=
  match l with
  | [] => p = None
  | a :: l' =>
      p = Some a /\
      match h !! a with
      | Some n => is_list h (part_next n) l'
      | None => False
      end
  end.

#[global] Instance is_list_dec h p l : Decision (is_list h p l).
Proof.
  revert p. induction l as [|a l IH]; intros p; simpl.
  - apply _.
  - destruct (h !! a); apply _.
Defined.

(** The partitions of the disk at [a] are the nodes [l]. *)
Definition disk_list (w : world) (a : ptr) (l : list N) : Prop :=
  match disks w !! a with
  | Some d => is_list (parts w) (disk_parts d) l
  | None => False
  end.

(** The first node among [l] that satisfies [matches]. *)
Fixpoint first_match (h : gmap N disk_part_t) (matches : disk_part_t -> bool)
    (l : list N) : option ptr :=
  match l with
  | [] => None
  | a :: l' =>
      match h !! a with
      | Some n => if matches n then Some a else first_match h matches l'
      | None => None
      end
  end.

(** The nodes among [l] that satisfy [keep]. *)
Fixpoint select (h : gmap N disk_part_t) (keep : disk_part_t -> bool)
    (l : list N) : list N :=
  match l with
  | [] => []
  | a :: l' =>
      match h !! a with
      | Some n => if keep n then a :: select h keep l' else select h keep l'
      | None => select h keep l'
      end
  end.

(** The heap after the flag of every node of [l] has been cleared. *)
Fixpoint blocked (l : list N) (h : gmap N disk_part_t) : gmap N disk_part_t :=
  match l with
  | [] => h
  | a :: l' => blocked l' (alter (set_part_available false) a h)
  end.

(** The disk at [a] has the partitions [l] and counts them right. *)
Definition part_count_is (w : world) (a : ptr) (l : list N) : Prop :=
  exists d,
    disks w !! a = Some d /\
    is_list (parts w) (disk_parts d) l /\
    disk_part_count d = Z.of_nat (length l).

(** A predicate on nodes that does not look at the [next] field. *)
Definition next_blind (f : disk_part_t -> bool) : Prop :=
  forall n p, f (set_part_next n p) = f p.

(** The world after the first two statements of [disk_scan] on the disk
    [d] at [a] with the partitions [l]. *)
Definition scan_marked (a : ptr) (d : disk_t) (l : list N) (w : world) : world :=
  set_parts (blocked l (parts w))
    (set_disks (<[a := set_disk_available false d]> (disks w)) w).

(** The flag of the node at [t], as [disk_part_clear] reads it. *)
Definition flag_of (h : gmap N disk_part_t) (t : ptr) : bool :=
  match h !! t with
  | Some p => part_available p
  | None => false
  end.

(** What one round of [disk_part_clear] does to the mount registry, and
    the calls it makes, for a node [t] with the flag [avail]. *)
Definition clear_vfs_step (t : ptr) (avail : bool) (vs : list (N * vfs_t))
    : list (N * vfs_t) :=
  match find_vfs t vs, avail with
  | None, true => vs ++ [(fresh_handle vs, mk_vfs VFS_TYPE_DISK (Some t))]
  | Some c, false => filter (fun e => fst e <> c) vs
  | _, _ => vs
  end.

Definition clear_events_step (t : ptr) (avail : bool) (vs : list (N * vfs_t))
    : list event :=
  match find_vfs t vs, avail with
  | None, true => [EvVfsRegister t (fresh_handle vs)]
  | Some c, false => [EvVfsUnregister c]
  | _, _ => []
  end.

Fixpoint clear_vfs (h : gmap N disk_part_t) (l : list N) (vs : list (N * vfs_t))
    : list (N * vfs_t) :=
  match l with
  | [] => vs
  | t :: l' => clear_vfs h l' (clear_vfs_step t (flag_of h t) vs)
  end.

Fixpoint clear_events (h : gmap N disk_part_t) (l : list N) (vs : list (N * vfs_t))
    : list event :=
  match l with
  | [] => []
  | t :: l' =>
      clear_events_step t (flag_of h t) vs ++
      clear_events h l' (clear_vfs_step t (flag_of h t) vs)
  end.

(** The world after the registry calls of one round of [disk_part_clear]. *)
Definition after_vfs (t : ptr) (avail : bool) (w : world) : world :=
  mk_world (disks w) (parts w) (clear_vfs_step t avail (vfs_list w)) (io w)
           (trace w ++ clear_events_step t avail (vfs_list w)).

(** What the loop of [disk_part_clear] has done when it has walked the
    nodes [l] behind [pre] ([NULL]: behind the list head of the disk [d] at
    [a]), from the world [w] to the world [w']: the nodes of [l] with the
    flag set are linked behind [pre] in their order, the others are freed
    and counted off, and no other node has changed. *)
Definition clear_post (a : ptr) (d : disk_t) (l : list N) (pre : option ptr)
    (w w' : world) : Prop :=
  let l' := select (parts w) part_available l in
  io w' = io w /\
  vfs_list w' = clear_vfs (parts w) l (vfs_list w) /\
  trace w' = trace w ++ clear_events (parts w) l (vfs_list w) /\
  (exists d',
     disks w' = <[a := d']> (disks w) /\
     d' = set_disk_part_count
            (disk_part_count d - Z.of_nat (length l - length l'))
            (set_disk_parts (disk_parts d') d) /\
     match pre with
     | None => is_list (parts w') (disk_parts d') l'
     | Some q =>
         disk_parts d' = disk_parts d /\
         exists pq',
           parts w' !! q = Some pq' /\
           set_part_next None <$> parts w !! q = Some (set_part_next None pq') /\
           is_list (parts w') (part_next pq') l'
     end) /\
  (forall x, x ∈ l -> x ∉ l' -> parts w' !! x = None) /\
  (forall x, x ∈ l' ->
     set_part_next None <$> parts w' !! x = set_part_next None <$> parts w !! x) /\
  (forall x, x ∉ l -> Some x <> pre -> parts w' !! x = parts w !! x).

(** From [w] to [w'], every disk other than [a] whose partitions are none
    of [l] keeps its list and its counter. *)
Definition others_kept (w w' : world) (a : ptr) (l : list N) : Prop :=
  forall b lb,
    b <> a ->
    part_count_is w b lb ->
    (forall x, x ∈ lb -> x ∉ l) ->
    part_count_is w' b lb.

(** Invariant I2 for the disk at [a]: no identity occurs twice in its list. *)
Definition identities_unique (w : world) (a : ptr) : Prop :=
  forall l start size,
    disk_list w a l ->
    (length (select (parts w) (disk_part_match start size) l) <= 1)%nat.

(** The sector address of a raw call. *)
Definition event_lba (e : event) : option Z :=
  match e with
  | EvRaw _ lba _ _ => Some lba
  | _ => None
  end.

(** [disk->part_count] of the disk at [a]. *)
Definition count_of (w : world) (a : ptr) : option Z :=
  disk_part_count <$> disks w !! a.

(** A table parser that reports the regions of [table]: it calls
    [disk_part_add] for each and sets the flag of the partition it gets. *)
Fixpoint sim_table_load (table : list (Z * Z)) (disk : option ptr) : M bool :=
  match table with
  | [] => ret true
  | (start, size) :: table' =>
      let* p := disk_part_add sim_vmm_alloc disk start size in
      run (match p with
           | Some _ => modify_part p (set_part_available true)
           | None => ret tt
           end) in
      sim_table_load table' disk
  end.

(** A parser that recognizes no table. *)
Definition sim_no_table (disk : option ptr) : M bool := ret false.

(** The disk of [sim_world] with two partitions, both flagged and mounted. *)
Definition sim_world2 : world :=
  mk_world
    {[ 1%N := mk_disk DISK_CONTROLLER_AHCI (Some 7%N) 512 true (Some 10%N) 2 ]}
    {[ 10%N := mk_part 2048 4096 true (Some 1%N) (Some 20%N);
       20%N := mk_part 8192 1000 true (Some 1%N) None ]}
    [(100%N, mk_vfs VFS_TYPE_DISK (Some 10%N)); (101%N, mk_vfs VFS_TYPE_DISK (Some 20%N))]
    sim_io [].

(** A controller that cannot reach the local array of the caller's
    stack: requests on [Scratch] fail, all others behave as [sim_port_do]. *)
Definition stack_blind_port_do (capacity : Z) (data : option ptr) (op : disk_op_t)
    (lba sector_count : Z) (buf : bufptr) (m : iomem) : bool * iomem :=
  match buf with
  | Some (Scratch, _) => (false, m)
  | _ => sim_port_do capacity data op lba sector_count buf m
  end.

(** A disk at address 2 whose controller kind has no driver. *)
Definition sim_world_unknown : world :=
  mk_world
    {[ 2%N := mk_disk (DISK_CONTROLLER_OTHER 9) (Some 7%N) 512 false None 0 ]}
    ∅ [] sim_io [].


(** An allocator without memory. *)
Definition null_vmm_alloc (w : world) : option ptr := None.

(** Iterating over the partitions of a disk with [disk_part_next], the
    way its callers do: start from [NULL], stop at [NULL]. *)
Fixpoint disk_part_walk (fuel : nat) (disk : option ptr) (cur : option ptr)
    : M (list N) :=
  match fuel with
  | O => fun w => (NoFuel, w)
  | S fuel' =>
      let* nxt := disk_part_next disk cur in
      match nxt with
      | None => ret []
      | Some n =>
          let* rest := disk_part_walk fuel' disk nxt in
          ret (n :: rest)
      end
  end.

(** Two nodes that differ at most in the [next] field. *)
Definition same_partition (p p' : disk_part_t) : Prop :=
  part_start p' = part_start p /\
  part_size p' = part_size p /\
  part_available p' = part_available p /\
  part_disk p' = part_disk p.

(** ** Disk registry *)

(** The registry of [disk.c]: the global [disk_first] and the [next] field
    of every [disk_t], kept in a map of its own beside the structures. *)
Record registry := mk_registry {
  disk_first : option ptr;
  disk_link : gmap N (option ptr);
}.

Definition kernel : Type := registry * world.

Definition K (A : Type) := kernel -> outcome A * kernel.

(** [is_chain lk p l]: following [next] from [p] visits the disks [l], in
    this order, and ends in [NULL]. *)
Fixpoint is_chain (lk : gmap N (option ptr)) (p : option ptr) (l : list N) : Prop :=
  match l with
  | [] => p = None
  | a :: l' =>
      p = Some a /\
      match lk !! a with
      | Some n => is_chain lk n l'
      | None => False
      end
  end.

(** The links seen as a list of nodes that carry nothing but [next]. *)
Definition bare_nodes (lk : gmap N (option ptr)) : gmap N disk_part_t :=
  (fun n => mk_part 0 0 false None n) <$> lk.

(** The last disk of the registry list that starts at [cur]. *)
Fixpoint registry_last (fuel : nat) (lk : gmap N (option ptr)) (cur : ptr) : outcome ptr :=
  match fuel with
  | O => NoFuel
  | S fuel' =>
      match lk !! cur with
      | None => Undef
      | Some None => Ret cur
      | Some (Some n) => registry_last fuel' lk n
      end
  end.

(** Modelled from the spec: [slist_add] ([util/list.h] is not part of the
    sources) appends the entry to the list, here the list of disks behind
    [disk_first]. *)
Definition registry_add (rg : registry) (new : ptr) : outcome registry :=
  match disk_first rg with
  | None => Ret (mk_registry (Some new) (disk_link rg))
  | Some first =>
      match registry_last (S (size (disk_link rg))) (disk_link rg) first with
      | Ret last => Ret (mk_registry (disk_first rg) (<[last := Some new]> (disk_link rg)))
      | Panic => Panic
      | Undef => Undef
      | NoFuel => NoFuel
      end
  end.

Section RegistryModel.

(** The kernel allocator, asked for a [disk_t]. *)
Variable vmm_alloc_disk : kernel -> option ptr.

(** The macro [slist_del] ([util/list.h], not part of the sources): it is
    given the list, that is [disk_first] and the [next] fields, and the
    entry to unlink. *)
Variable slist_del : registry -> ptr -> registry.

Definition disk_add (controller : disk_controller_t) (data : option ptr)
    : K (option ptr) :=
  fun st =>
    match data with
    | None => (Ret None, st)
    | Some _ =>
        match vmm_alloc_disk st with
        | None => (Undef, st) (* bzero through NULL *)
        | Some a =>
            (* bzero, then the three assignments *)
            let rg1 := mk_registry (disk_first (fst st)) (<[a := None]> (disk_link (fst st))) in
            let w1 := set_disks (<[a := mk_disk controller data DISK_DEFAULT_SECTOR_SIZE
                                            false None 0]> (disks (snd st))) (snd st) in
            match registry_add rg1 a with
            | Ret rg2 => (Ret (Some a), (rg2, w1))
            | Panic => (Panic, (rg1, w1))
            | Undef => (Undef, (rg1, w1))
            | NoFuel => (NoFuel, (rg1, w1))
            end
        end
    end.

(** [vmm_free] of a [disk_t]; freeing what is not allocated is undefined. *)
Definition disk_remove (disk : option ptr) : K unit :=
  fun st =>
    match disk, disk_first (fst st) with
    | None, _ => (Ret tt, st)
    | _, None => (Ret tt, st)
    | Some a, Some _ =>
        let rg1 := slist_del (fst st) a in
        match disks (snd st) !! a with
        | None => (Undef, (rg1, snd st))
        | Some _ =>
            (Ret tt, (mk_registry (disk_first rg1) (delete a (disk_link rg1)),
                      set_disks (delete a (disks (snd st))) (snd st)))
        end
    end.

Definition disk_next (disk : option ptr) : K (option ptr) :=
  fun st =>
    match disk with
    | None => (Ret (disk_first (fst st)), st)
    | Some a =>
        match disks (snd st) !! a, disk_link (fst st) !! a with
        | Some _, Some n => (Ret n, st)
        | _, _ => (Undef, st)
        end
    end.

(** Iterating over the registry with [disk_next], the way its callers do:
    start from [NULL], stop at [NULL]. *)
Fixpoint disk_walk (fuel : nat) (cur : option ptr) : K (list N) :=
  fun st =>
    match fuel with
    | O => (NoFuel, st)
    | S fuel' =>
        match disk_next cur st with
        | (Ret None, st1) => (Ret [], st1)
        | (Ret (Some n), st1) =>
            match disk_walk fuel' (Some n) st1 with
            | (Ret rest, st2) => (Ret (n :: rest), st2)
            | other => other
            end
        | (Panic, st1) => (Panic, st1)
        | (Undef, st1) => (Undef, st1)
        | (NoFuel, st1) => (NoFuel, st1)
        end
    end.

End RegistryModel.

(** An allocator of disks that hands out the address after the highest
    live disk. *)
Definition sim_vmm_alloc_disk (st : kernel) : option ptr :=
  Some (N.succ (foldr N.max 0%N (map fst (map_to_list (disks (snd st)))))).

(** Unlinks the entry from the list, when it is there. *)
Fixpoint unlink_from (fuel : nat) (lk : gmap N (option ptr)) (cur entry : ptr)
    : gmap N (option ptr) :=
  match fuel with
  | O => lk
  | S fuel' =>
      match lk !! cur with
      | Some (Some n) =>
          if decide (n = entry)
          then match lk !! entry with
               | Some nn => <[cur := nn]> lk
               | None => lk
               end
          else unlink_from fuel' lk n entry
      | _ => lk
      end
  end.

Definition sim_slist_del (rg : registry) (entry : ptr) : registry :=
  match disk_first rg with
  | None => rg
  | Some first =>
      if decide (first = entry)
      then match disk_link rg !! entry with
           | Some n => mk_registry n (disk_link rg)
           | None => rg
           end
      else mk_registry (disk_first rg)
             (unlink_from (S (size (disk_link rg))) (disk_link rg) first entry)
  end.

(** The registry with the one disk of [sim_world]. *)
Definition sim_kernel : kernel :=
  (mk_registry (Some 1%N) {[ 1%N := None ]}, sim_world).

(** No disk at all. *)
Definition empty_kernel : kernel :=
  (mk_registry None ∅, mk_world ∅ ∅ [] sim_io []).

(** The registry with the one disk of [sim_world2]. *)
Definition sim_kernel2 : kernel :=
  (mk_registry (Some 1%N) {[ 1%N := None ]}, sim_world2).

(** [sim_world2] after a mark phase: no partition is flagged. *)
Definition sim_world2_blocked : world :=
  set_parts (blocked [10%N; 20%N] (parts sim_world2)) sim_world2.


(** The disk of [sim_world2] with the second partition not flagged. *)
Definition sim_world_half : world :=
  mk_world
    {[ 1%N := mk_disk DISK_CONTROLLER_AHCI (Some 7%N) 512 true (Some 10%N) 2 ]}
    {[ 10%N := mk_part 2048 4096 true (Some 1%N) (Some 20%N);
       20%N := mk_part 8192 1000 false (Some 1%N) None ]}
    [(100%N, mk_vfs VFS_TYPE_DISK (Some 10%N)); (101%N, mk_vfs VFS_TYPE_DISK (Some 20%N))]
    sim_io [].


(** ** Properties of the transfer functions *)

Section TransferProps.

Variable ahci_port_do :
  option ptr -> disk_op_t -> Z -> Z -> bufptr -> iomem -> bool * iomem.

Lemma bind_ret_l {A B} (m : M A) (k : A -> M B) w a w1 :
  m w = (Ret a, w1) -> bind m k w = k a w1.
Proof. intros H. unfold bind. now rewrite H. Qed.

Lemma load_disk_some w a d :
  disks w !! a = Some d -> load_disk (Some a) w = (Ret d, w).
Proof. intros H. unfold load_disk. now rewrite H. Qed.

Lemma load_part_some w a p :
  parts w !! a = Some p -> load_part (Some a) w = (Ret p, w).
Proof. intros H. unfold load_part. now rewrite H. Qed.

(** A raw call on an AHCI disk is one call of the primitive. *)
Lemma disk_do_raw_ahci w a d op lba n buf :
  disks w !! a = Some d ->
  disk_controller d = DISK_CONTROLLER_AHCI ->
  __disk_do_raw ahci_port_do (Some a) op lba n buf w =
  (Ret (fst (ahci_port_do (disk_data d) op lba n buf (io w))),
   set_io (snd (ahci_port_do (disk_data d) op lba n buf (io w)))
          (logged (EvRaw op lba n buf) w)).
Proof.
  intros Hd Hc. unfold __disk_do_raw, bind, log, load_disk. simpl.
  rewrite Hd, Hc. unfold call_port_do. simpl.
  now destruct (ahci_port_do _ _ _ _ _ _).
Qed.

(** A raw call on a disk of any other kind is a panic. *)
Lemma disk_do_raw_other w a d op lba n buf :
  disks w !! a = Some d ->
  disk_controller d <> DISK_CONTROLLER_AHCI ->
  __disk_do_raw ahci_port_do (Some a) op lba n buf w =
  (Panic, logged (EvRaw op lba n buf) w).
Proof.
  intros Hd Hc. unfold __disk_do_raw, bind, log, load_disk. simpl.
  rewrite Hd. destruct (disk_controller d); [congruence | reflexivity].
Qed.

(** Whatever happens in a raw call, it leaves exactly one entry in the
    trace and does not touch the kernel structures. *)
Lemma disk_do_raw_frame w a d op lba n buf :
  disks w !! a = Some d ->
  let w' := snd (__disk_do_raw ahci_port_do (Some a) op lba n buf w) in
  trace w' = trace w ++ [EvRaw op lba n buf] /\
  disks w' = disks w /\ parts w' = parts w /\ vfs_list w' = vfs_list w.
Proof.
  intros Hd. destruct (decide (disk_controller d = DISK_CONTROLLER_AHCI)) as [Hc|Hc].
  - rewrite (disk_do_raw_ahci _ _ _ _ _ _ _ Hd Hc). simpl. auto.
  - rewrite (disk_do_raw_other _ _ _ _ _ _ _ Hd Hc). simpl. auto.
Qed.

Lemma wrap64_small x : 0 <= x < 2 ^ 64 -> wrap64 x = x.
Proof. intros H. unfold wrap64. now apply Z.mod_small. Qed.

(** The raw calls of [k] rounds of the loop, as they appear in the trace. *)
Lemma loop_events_succ op lba buf off ss (j : nat) :
  EvRaw op lba 1 (buf_add buf off) ::
  map (fun i : nat => EvRaw op lba 1 (buf_add buf (off + ss + Z.of_nat i * ss))) (seq 0 j) =
  map (fun i : nat => EvRaw op lba 1 (buf_add buf (off + Z.of_nat i * ss))) (seq 0 (S j)).
Proof.
  cbn [seq map]. f_equal.
  - f_equal. f_equal. lia.
  - rewrite <- seq_shift, map_map. apply map_ext. intros i.
    do 2 f_equal. lia.
Qed.

(** The loop runs [k] rounds when [size] is [k] sectors above [rem]; it
    ends by leaving the loop, by the [return false] after a failed raw
    call, or in the panic of a raw call, and never runs out of rounds. *)
Lemma disk_do_size_loop_run (k : nat) :
  forall fuel w a d op lba rem buf size off,
    disks w !! a = Some d ->
    0 < disk_sector_size d ->
    0 <= rem ->
    size = rem + Z.of_nat k * disk_sector_size d ->
    size < 2 ^ 64 ->
    0 <= off ->
    off + Z.of_nat k * disk_sector_size d < 2 ^ 64 ->
    (k < fuel)%nat ->
    exists o w' (j : nat),
      disk_do_size_loop ahci_port_do fuel (Some a) op lba rem buf size off w = (o, w') /\
      (o = Ret None \/ o = Ret (Some (off + Z.of_nat k * disk_sector_size d)) \/ o = Panic) /\
      disks w' = disks w /\ parts w' = parts w /\ vfs_list w' = vfs_list w /\
      (j <= k)%nat /\
      (o = Ret (Some (off + Z.of_nat k * disk_sector_size d)) -> j = k) /\
      trace w' = trace w ++
        map (fun i : nat => EvRaw op lba 1 (buf_add buf (off + Z.of_nat i * disk_sector_size d)))
            (seq 0 j).
Proof.
  induction k as [|k IH]; intros fuel w a d op lba rem buf size off Hd Hss Hrem Hsize Hmax Hoff Hoffmax Hfuel.
  - destruct fuel as [|fuel]; [lia|]. simpl.
    replace (size =? rem) with true by (symmetry; apply Z.eqb_eq; lia).
    exists (Ret (Some off)), w, 0%nat. simpl.
    repeat split; auto.
    + right; left. do 2 f_equal. lia.
    + now rewrite app_nil_r.
  - destruct fuel as [|fuel]; [lia|]. simpl.
    replace (size =? rem) with false by (symmetry; apply Z.eqb_neq; lia).
    destruct (decide (disk_controller d = DISK_CONTROLLER_AHCI)) as [Hc|Hc].
    + unfold bind at 1. rewrite (disk_do_raw_ahci _ _ _ _ _ _ _ Hd Hc).
      set (res := ahci_port_do (disk_data d) op lba 1 (buf_add buf off) (io w)).
      set (w1 := set_io (snd res) (logged (EvRaw op lba 1 (buf_add buf off)) w)).
      destruct (fst res).
      * cbn [negb].
        assert (Hd1 : disks w1 !! a = Some d) by exact Hd.
        unfold bind at 1. rewrite (load_disk_some _ _ _ Hd1).
        rewrite (wrap64_small (size - disk_sector_size d)) by lia.
        rewrite (wrap64_small (off + disk_sector_size d)) by lia.
        destruct (IH fuel w1 a d op lba rem buf (size - disk_sector_size d)
                    (off + disk_sector_size d) Hd1 Hss Hrem) as (o & w' & j & Hrun & Ho & Hds & Hps & Hvs & Hj & Hjk & Htr);
          try lia.
        exists o, w', (S j). rewrite Hrun.
        replace (off + Z.of_nat (S k) * disk_sector_size d)
          with (off + disk_sector_size d + Z.of_nat k * disk_sector_size d) by lia.
        repeat split; auto.
        -- lia.
        -- rewrite Htr. subst w1. simpl. rewrite <- app_assoc. f_equal.
           simpl app. apply loop_events_succ.
      * simpl. exists (Ret None), w1, 1%nat.
        repeat split; auto; try lia.
        -- discriminate.
        -- subst w1. simpl. now rewrite Z.add_0_r.
    + unfold bind at 1. rewrite (disk_do_raw_other _ _ _ _ _ _ _ Hd Hc).
      exists Panic, (logged (EvRaw op lba 1 (buf_add buf off)) w), 1%nat.
      repeat split; auto; try lia.
      * discriminate.
      * simpl. now rewrite Z.add_0_r.
Qed.

(** The statements under [do_copy] for a non-zero remainder: one raw call
    on the local array, then [rem] bytes from the local array to the
    caller, for every operation alike. *)
Lemma disk_do_size_copy_run w a op lba rem r o off b w2 :
  rem <> 0 ->
  __disk_do_raw ahci_port_do (Some a) op lba 1 (Some (Scratch, 0)) w = (Ret b, w2) ->
  disk_do_size_copy ahci_port_do (Some a) op lba rem (Some (r, o)) off w =
  (Ret b, set_io (copy_bytes r (o + off) Scratch 0 rem (io w2))
                 (logged (EvCopy (Some (r, o + off)) (Some (Scratch, 0)) rem) w2)).
Proof.
  intros Hrem Hraw. unfold disk_do_size_copy.
  replace (rem =? 0) with false by (symmetry; now apply Z.eqb_neq).
  rewrite (bind_ret_l _ _ _ _ _ Hraw). reflexivity.
Qed.

Lemma copy_bytes_inside dr doff sr soff n m i :
  0 <= i < n ->
  copy_bytes dr doff sr soff n m dr (doff + i) = m sr (soff + i).
Proof.
  intros Hi. unfold copy_bytes. rewrite decide_True by reflexivity.
  replace ((doff <=? doff + i) && (doff + i <? doff + n)) with true
    by (symmetry; apply andb_true_intro; split; [apply Z.leb_le | apply Z.ltb_lt]; lia).
  f_equal. lia.
Qed.

Lemma copy_bytes_outside dr doff sr soff n m r i :
  r <> dr \/ i < doff \/ doff + n <= i ->
  copy_bytes dr doff sr soff n m r i = m r i.
Proof.
  intros Hout. unfold copy_bytes. destruct (decide (r = dr)) as [->|]; [|reflexivity].
  destruct Hout as [Hne|Hout]; [congruence|].
  replace ((doff <=? i) && (i <? doff + n)) with false; [reflexivity|].
  symmetry. apply andb_false_iff. rewrite Z.leb_gt, Z.ltb_ge. lia.
Qed.

Lemma raw_events_lba op lba (g : nat -> bufptr) (js : list nat) :
  Forall (fun e => forall l, event_lba e = Some l -> l = lba)
         (map (fun i => EvRaw op lba 1 (g i)) js).
Proof.
  induction js as [|j js IH]; constructor; [|exact IH].
  intros l [= <-]. reflexivity.
Qed.

(** The events of the statements under [do_copy]. *)
Lemma disk_do_size_copy_events w a d op lba rem buf off :
  disks w !! a = Some d ->
  exists evs,
    trace (snd (disk_do_size_copy ahci_port_do (Some a) op lba rem buf off w)) =
      trace w ++ evs /\
    Forall (fun e => forall l, event_lba e = Some l -> l = lba) evs.
Proof.
  intros Hd. unfold disk_do_size_copy. destruct (rem =? 0).
  - exists []. split; [symmetry; apply app_nil_r | constructor].
  - destruct (decide (disk_controller d = DISK_CONTROLLER_AHCI)) as [Hc|Hc].
    + unfold bind at 1. rewrite (disk_do_raw_ahci _ _ _ _ _ _ _ Hd Hc).
      exists [EvRaw op lba 1 (Some (Scratch, 0)); EvCopy (buf_add buf off) (Some (Scratch, 0)) rem].
      split.
      * unfold memcpy, bind, log. cbn.
        destruct (buf_add buf off) as [[dr doff]|]; cbn;
          [|destruct (rem =? 0); cbn]; now rewrite <- app_assoc.
      * repeat constructor; intros l [= <-]; reflexivity.
    + unfold bind at 1. rewrite (disk_do_raw_other _ _ _ _ _ _ _ Hd Hc).
      exists [EvRaw op lba 1 (Some (Scratch, 0))]. split; [reflexivity|].
      repeat constructor. intros l [= <-]. reflexivity.
Qed.

(** Every raw call of a transfer carries the sector address the transfer
    was given: [__disk_do_size] never moves [lba]. *)
Lemma disk_do_size_same_lba w a d op lba size buf :
  disks w !! a = Some d ->
  0 < disk_sector_size d ->
  0 <= size < 2 ^ 64 ->
  exists evs,
    trace (snd (__disk_do_size ahci_port_do (Some a) op lba size buf w)) = trace w ++ evs /\
    Forall (fun e => forall l, event_lba e = Some l -> l = lba) evs.
Proof.
  intros Hd Hss Hsize. set (ss := disk_sector_size d) in *.
  unfold __disk_do_size.
  rewrite (bind_ret_l _ _ _ _ _ (load_disk_some _ _ _ Hd)).
  unfold div_floor, umod. fold ss.
  replace (ss =? 0) with false by (symmetry; apply Z.eqb_neq; lia).
  unfold bind at 1, ret at 1. unfold bind at 1, ret at 1.
  destruct (size mod ss =? 0) eqn:Hrem.
  - exists [EvRaw op lba (size / ss) buf]. split.
    + apply (disk_do_raw_frame _ _ _ _ _ _ _ Hd).
    + repeat constructor. intros l [= <-]. reflexivity.
  - apply Z.eqb_neq in Hrem. unfold disk_do_size_whole.
    unfold bind at 1.
    rewrite (bind_ret_l _ _ _ _ _ (load_disk_some _ _ _ Hd)). fold ss.
    destruct (size <? ss) eqn:Hlt.
    + unfold ret at 1.
      apply (disk_do_size_copy_events w a d op lba (size mod ss) buf 0 Hd).
    + apply Z.ltb_ge in Hlt.
      pose proof (Z.mod_pos_bound size ss Hss) as Hbound.
      pose proof (Z.div_mod size ss ltac:(lia)) as Hdm.
      assert (Hq : 0 <= size / ss) by (apply Z.div_pos; lia).
      destruct (disk_do_size_loop_run (Z.to_nat (size / ss)) (S (Z.to_nat (size / ss)))
                  w a d op lba (size mod ss) buf size 0 Hd Hss)
        as (o & w1 & j & Hrun & Ho & Hds & _ & _ & _ & _ & Htr); fold ss; try lia.
      fold ss in Hrun, Ho, Htr. rewrite Hrun.
      assert (Hloop : Forall (fun e => forall l, event_lba e = Some l -> l = lba)
                (map (fun i : nat => EvRaw op lba 1 (buf_add buf (0 + Z.of_nat i * ss)))
                     (seq 0 j))) by apply raw_events_lba.
      destruct Ho as [->|[->| ->]].
      * eexists. split; [exact Htr | exact Hloop].
      * assert (Hd1 : disks w1 !! a = Some d) by (now rewrite Hds).
        destruct (disk_do_size_copy_events w1 a d op lba (size mod ss) buf
                    (0 + Z.of_nat (Z.to_nat (size / ss)) * ss) Hd1) as (evs & Hev & Hall).
        eexists. split.
        -- rewrite Hev, Htr, <- app_assoc. reflexivity.
        -- apply Forall_app. split; assumption.
      * eexists. split; [exact Htr | exact Hloop].
Qed.

(** The copy under [do_copy] writes [rem] bytes of the caller's buffer and
    no other byte of it. *)
Lemma disk_do_size_copy_untouched w a op lba rem r o off b w2 i :
  rem <> 0 ->
  __disk_do_raw ahci_port_do (Some a) op lba 1 (Some (Scratch, 0)) w = (Ret b, w2) ->
  i < o + off \/ o + off + rem <= i ->
  io (snd (disk_do_size_copy ahci_port_do (Some a) op lba rem (Some (r, o)) off w)) r i =
  io w2 r i.
Proof.
  intros Hrem Hraw Hi.
  rewrite (disk_do_size_copy_run _ _ _ _ _ _ _ _ _ _ Hrem Hraw). cbn.
  apply copy_bytes_outside. now right.
Qed.

(** C9: a raw call on a disk whose controller kind has no case panics and
    returns nothing; on a disk of the AHCI kind it returns, unchanged, the
    boolean that the controller primitive answered. *)
Theorem disk_do_raw_dispatch w a d op lba n buf :
  disks w !! a = Some d ->
  fst (__disk_do_raw ahci_port_do (Some a) op lba n buf w) =
  match disk_controller d with
  | DISK_CONTROLLER_AHCI => Ret (fst (ahci_port_do (disk_data d) op lba n buf (io w)))
  | DISK_CONTROLLER_OTHER _ => Panic
  end.
Proof.
  intros Hd. destruct (disk_controller d) eqn:Hc.
  - now rewrite (disk_do_raw_ahci _ _ _ _ _ _ _ Hd Hc).
  - rewrite (disk_do_raw_other _ _ d); [reflexivity | assumption | congruence].
Qed.

(** C7: when [size] is a multiple of the sector size, the transfer is one
    raw call for [size / sector_size] sectors on the caller's buffer, and
    the trace gains that call and no copy. *)
Theorem disk_do_size_aligned w a d op lba size buf :
  disks w !! a = Some d ->
  disk_sector_size d <> 0 ->
  size mod disk_sector_size d = 0 ->
  __disk_do_size ahci_port_do (Some a) op lba size buf w =
    __disk_do_raw ahci_port_do (Some a) op lba (size / disk_sector_size d) buf w /\
  trace (snd (__disk_do_size ahci_port_do (Some a) op lba size buf w)) =
    trace w ++ [EvRaw op lba (size / disk_sector_size d) buf].
Proof.
  intros Hd Hss Hmod.
  assert (Hrun : __disk_do_size ahci_port_do (Some a) op lba size buf w =
                 __disk_do_raw ahci_port_do (Some a) op lba (size / disk_sector_size d) buf w).
  { unfold __disk_do_size.
    rewrite (bind_ret_l _ _ _ _ _ (load_disk_some _ _ _ Hd)).
    unfold div_floor, umod.
    replace (disk_sector_size d =? 0) with false by (symmetry; now apply Z.eqb_neq).
    unfold bind at 1, ret at 1. unfold bind at 1, ret at 1.
    rewrite Hmod. reflexivity. }
  split; [exact Hrun|].
  rewrite Hrun. apply (disk_do_raw_frame _ _ _ _ _ _ _ Hd).
Qed.

(** C10: in a transfer whose size is not a multiple of the sector size,
    when the raw call on the local array is reached and fails, the function
    returns false, and it does so after the copy: the [rem] bytes of the
    caller's buffer from offset [size - rem] on hold what the local array
    held after the failed call. *)
Theorem disk_do_size_failed_tail w a d op lba size r o off w1 w2 :
  disks w !! a = Some d ->
  0 < disk_sector_size d ->
  0 <= size < 2 ^ 64 ->
  size mod disk_sector_size d <> 0 ->
  disk_do_size_whole ahci_port_do (Some a) op lba size (Some (r, o))
    (size / disk_sector_size d) (size mod disk_sector_size d) w = (Ret (Some off), w1) ->
  __disk_do_raw ahci_port_do (Some a) op lba 1 (Some (Scratch, 0)) w1 = (Ret false, w2) ->
  exists w',
    __disk_do_size ahci_port_do (Some a) op lba size (Some (r, o)) w = (Ret false, w') /\
    off = size - size mod disk_sector_size d /\
    trace w' = trace w2 ++
      [EvCopy (Some (r, o + off)) (Some (Scratch, 0)) (size mod disk_sector_size d)] /\
    forall i, 0 <= i < size mod disk_sector_size d ->
      io w' r (o + off + i) = io w2 Scratch i.
Proof.
  intros Hd Hss Hsize Hmod Hwhole Hraw.
  set (ss := disk_sector_size d) in *.
  eexists. split; [|split; [|split]].
  - unfold __disk_do_size.
    rewrite (bind_ret_l _ _ _ _ _ (load_disk_some _ _ _ Hd)).
    unfold div_floor, umod. fold ss.
    replace (ss =? 0) with false by (symmetry; apply Z.eqb_neq; lia).
    unfold bind at 1, ret at 1. unfold bind at 1, ret at 1.
    replace (size mod ss =? 0) with false by (symmetry; now apply Z.eqb_neq).
    rewrite (bind_ret_l _ _ _ _ _ Hwhole).
    apply (disk_do_size_copy_run _ _ _ _ _ _ _ _ _ _ Hmod Hraw).
  - unfold disk_do_size_whole in Hwhole.
    rewrite (bind_ret_l _ _ _ _ _ (load_disk_some _ _ _ Hd)) in Hwhole. fold ss in Hwhole.
    pose proof (Z.mod_pos_bound size ss Hss) as Hbound.
    pose proof (Z.div_mod size ss ltac:(lia)) as Hdm.
    destruct (size <? ss) eqn:Hlt.
    + apply Z.ltb_lt in Hlt. rewrite (Z.mod_small size ss) by lia.
      inversion Hwhole. lia.
    + apply Z.ltb_ge in Hlt.
      assert (Hq : 0 <= size / ss) by (apply Z.div_pos; lia).
      destruct (disk_do_size_loop_run (Z.to_nat (size / ss)) (S (Z.to_nat (size / ss)))
                  w a d op lba (size mod ss) (Some (r, o)) size 0 Hd Hss)
        as (o' & w'' & j & Hrun & Ho & _); fold ss; try lia.
      rewrite Hrun in Hwhole. inversion Hwhole; subst o' w''.
      destruct Ho as [Ho|[Ho|Ho]]; try discriminate.
      inversion Ho. fold ss. lia.
  - reflexivity.
  - intros i Hi. simpl. apply (copy_bytes_inside r (o + off) Scratch 0). exact Hi.
Qed.

End TransferProps.

(** ** Properties of partition lists *)

Section ListProps.

Implicit Types (h : gmap N disk_part_t) (l : list N) (p : option N).

Lemma is_list_frame h h' p l :
  (forall x, x ∈ l -> h' !! x = h !! x) ->
  is_list h p l -> is_list h' p l.
Proof.
  revert p. induction l as [|a l IH]; intros p Hsame; simpl; [auto|].
  intros [-> Hl]. split; [reflexivity|].
  rewrite (Hsame a) by left.
  destruct (h !! a) as [n|]; [|contradiction].
  apply IH; [|exact Hl]. intros x Hx. apply Hsame. now right.
Qed.

Lemma is_list_inj h p l1 l2 :
  is_list h p l1 -> is_list h p l2 -> l1 = l2.
Proof.
  revert p l2. induction l1 as [|a l1 IH]; intros p [|b l2]; simpl.
  - reflexivity.
  - intros -> [? _]. discriminate.
  - intros [-> _] ?. discriminate.
  - intros [-> H1] [Hb H2]. injection Hb as <-.
    destruct (h !! a) as [n|]; [|contradiction].
    f_equal. eapply IH; eauto.
Qed.

Lemma is_list_suffix h p l1 a l2 :
  is_list h p (l1 ++ a :: l2) -> is_list h (Some a) (a :: l2).
Proof.
  revert p. induction l1 as [|b l1 IH]; intros p; simpl.
  - intros [-> H]. split; [reflexivity | exact H].
  - intros [-> H]. destruct (h !! b) as [n|]; [|contradiction]. eapply IH, H.
Qed.

Lemma is_list_NoDup h p l : is_list h p l -> NoDup l.
Proof.
  revert p. induction l as [|a l IH]; intros p; simpl.
  - constructor.
  - intros [-> H]. destruct (h !! a) as [n|] eqn:Ha; [|contradiction].
    constructor; [|eapply IH, H].
    intros Hin. apply list_elem_of_split in Hin as (l1 & l2 & ->).
    pose proof (is_list_suffix _ _ _ _ _ H) as Hsuf.
    assert (Hfull : is_list h (Some a) (a :: l1 ++ a :: l2)).
    { simpl. rewrite Ha. split; [reflexivity | exact H]. }
    pose proof (is_list_inj _ _ _ _ Hsuf Hfull) as Heq.
    apply (f_equal length) in Heq. simpl in Heq.
    rewrite length_app in Heq. simpl in Heq. lia.
Qed.

Lemma is_list_dom h p l x : is_list h p l -> x ∈ l -> is_Some (h !! x).
Proof.
  revert p. induction l as [|a l IH]; intros p; simpl.
  - intros _ Hx. inversion Hx.
  - intros [-> H] Hx. destruct (h !! a) as [n|] eqn:Ha; [|contradiction].
    apply elem_of_cons in Hx as [->|Hx]; [rewrite Ha; eauto | eapply IH; eauto].
Qed.

(** A well-formed list is no longer than the heap has nodes. *)
Lemma is_list_bound h p l : is_list h p l -> (length l <= size h)%nat.
Proof.
  intros H.
  rewrite <- (size_dom (D := gset N) h).
  rewrite <- (size_list_to_set (C := gset N) l) by (eapply is_list_NoDup, H).
  apply subseteq_size. intros x Hx.
  apply elem_of_list_to_set in Hx. apply elem_of_dom. eapply is_list_dom; eauto.
Qed.

End ListProps.

(** ** Properties of the list primitives *)

Section ListOps.

Implicit Types (h : gmap N disk_part_t) (l : list N) (w : world).

Lemma modify_disk_some w a d f :
  disks w !! a = Some d ->
  modify_disk (Some a) f w = (Ret tt, set_disks (<[a := f d]> (disks w)) w).
Proof.
  intros H. unfold modify_disk.
  now rewrite (bind_ret_l _ _ _ _ _ (load_disk_some _ _ _ H)).
Qed.

Lemma modify_part_some w a p f :
  parts w !! a = Some p ->
  modify_part (Some a) f w = (Ret tt, set_parts (<[a := f p]> (parts w)) w).
Proof.
  intros H. unfold modify_part.
  now rewrite (bind_ret_l _ _ _ _ _ (load_part_some _ _ _ H)).
Qed.

Lemma heap_bound_enough w p l :
  is_list (parts w) p l -> (length l < heap_bound w)%nat.
Proof. intros H. apply is_list_bound in H. unfold heap_bound. lia. Qed.

(** [slist_find] on a well-formed list returns its first match and leaves
    the world alone. *)
Lemma slist_find_run matches l :
  forall fuel w p,
    is_list (parts w) p l ->
    (length l < fuel)%nat ->
    slist_find fuel matches p w = (Ret (first_match (parts w) matches l), w).
Proof.
  induction l as [|a l IH]; intros fuel w p Hl Hfuel;
    (destruct fuel as [|fuel]; [simpl in Hfuel; lia|]); simpl in *.
  - now subst p.
  - destruct Hl as [-> Hl]. destruct (parts w !! a) as [n|] eqn:Ha; [|contradiction].
    rewrite (bind_ret_l _ _ _ _ _ (load_part_some _ _ _ Ha)).
    destruct (matches n); [reflexivity|].
    apply IH; [exact Hl | lia].
Qed.

Lemma last_cons_default (l : list N) :
  forall a b, List.last (b :: l) a = List.last l b.
Proof.
  induction l as [|c l IH]; intros a b; [reflexivity|].
  change (List.last (b :: c :: l) a) with (List.last (c :: l) a).
  now rewrite (IH a c), (IH b c).
Qed.

(** [slist_last] on a well-formed list returns its last node. *)
Lemma slist_last_run l :
  forall fuel w a,
    is_list (parts w) (Some a) (a :: l) ->
    (length l < fuel)%nat ->
    slist_last fuel a w = (Ret (List.last l a), w).
Proof.
  induction l as [|b l IH]; intros fuel w a Hl Hfuel;
    (destruct fuel as [|fuel]; [simpl in Hfuel; lia|]);
    cbn [slist_last]; cbn [is_list] in Hl; destruct Hl as [_ Hl];
    destruct (parts w !! a) as [n|] eqn:Ha; try contradiction;
    rewrite (bind_ret_l _ _ _ _ _ (load_part_some _ _ _ Ha)).
  - cbn [is_list] in Hl. now rewrite Hl.
  - assert (Hn : part_next n = Some b) by (cbn [is_list] in Hl; tauto).
    rewrite Hn. rewrite Hn in Hl.
    rewrite (IH fuel w b Hl) by (simpl in Hfuel; lia).
    now rewrite last_cons_default.
Qed.

(** Linking a detached node behind the last node of a list. *)
Lemma is_list_append h l :
  forall p n node,
    is_list h p l ->
    l <> [] ->
    n ∉ l ->
    h !! n = Some node ->
    part_next node = None ->
    exists plst,
      h !! List.last l n = Some plst /\
      List.last l n ∈ l /\
      is_list (<[List.last l n := set_part_next (Some n) plst]> h) p (l ++ [n]).
Proof.
  induction l as [|a l IH]; intros p n node Hl Hne Hn Hnode Hnext; [congruence|].
  pose proof (is_list_NoDup _ _ _ Hl) as Hnd. apply NoDup_cons in Hnd as [Ha _].
  cbn [is_list] in Hl. destruct Hl as [-> Hl].
  destruct (h !! a) as [pa|] eqn:Hpa; [|contradiction].
  apply not_elem_of_cons in Hn as [Hna Hn].
  destruct l as [|b l].
  - cbn [is_list] in Hl. exists pa. cbn [List.last]. split; [exact Hpa|]. split; [left|].
    cbn [app is_list]. split; [reflexivity|].
    rewrite lookup_insert_eq. cbn [set_part_next part_next]. split; [reflexivity|].
    rewrite lookup_insert_ne by congruence. rewrite Hnode. exact Hnext.
  - destruct (IH (part_next pa) n node Hl ltac:(discriminate) Hn Hnode Hnext)
      as (plst & Hlst & Hin & Happ).
    change (List.last (a :: b :: l) n) with (List.last (b :: l) n).
    exists plst. split; [exact Hlst|]. split; [now right|].
    change ((a :: b :: l) ++ [n]) with (a :: ((b :: l) ++ [n])).
    cbn [is_list]. split; [reflexivity|].
    rewrite lookup_insert_ne by (intros Heq; apply Ha; rewrite <- Heq; exact Hin).
    rewrite Hpa. exact Happ.
Qed.

Lemma bind_get {B} (k : world -> M B) w : bind get k w = k w w.
Proof. reflexivity. Qed.

(** [slist_add] on a well-formed list: the detached node [n] becomes the
    last node; apart from one [next] field nothing on the heap changes. *)
Lemma slist_add_run w a d l n node :
  disks w !! a = Some d ->
  is_list (parts w) (disk_parts d) l ->
  n ∉ l ->
  parts w !! n = Some node ->
  part_next node = None ->
  exists w' d',
    slist_add (Some a) n w = (Ret tt, w') /\
    vfs_list w' = vfs_list w /\ io w' = io w /\ trace w' = trace w /\
    disks w' = <[a := d']> (disks w) /\
    d' = set_disk_parts (disk_parts d') d /\
    is_list (parts w') (disk_parts d') (l ++ [n]) /\
    parts w' !! n = Some node /\
    (forall x, set_part_next None <$> parts w' !! x = set_part_next None <$> parts w !! x) /\
    (forall x, x ∉ l -> parts w' !! x = parts w !! x).
Proof.
  intros Hd Hl Hn Hnode Hnext. unfold slist_add.
  rewrite (bind_ret_l _ _ _ _ _ (load_disk_some _ _ _ Hd)).
  destruct l as [|b l].
  - cbn [is_list] in Hl. rewrite Hl.
    rewrite (modify_disk_some _ _ _ _ Hd).
    eexists _, (set_disk_parts (Some n) d). split; [reflexivity|].
    split_and!; try reflexivity; try done.
    cbn. now rewrite Hnode.
  - assert (Hb : disk_parts d = Some b) by (cbn [is_list] in Hl; tauto).
    rewrite Hb. rewrite bind_get. rewrite Hb in Hl.
    rewrite (bind_ret_l _ _ _ _ _
               (slist_last_run l (heap_bound w) w b Hl
                  ltac:(pose proof (heap_bound_enough _ _ _ Hl) as Hh; simpl in Hh; lia))).
    destruct (is_list_append _ _ _ _ _ Hl ltac:(discriminate) Hn Hnode Hnext)
      as (plst & Hlst & Hin & Happ).
    rewrite (last_cons_default l n b) in Hlst, Hin, Happ.
    rewrite (modify_part_some _ _ _ _ Hlst).
    exists (set_parts (<[List.last l b := set_part_next (Some n) plst]> (parts w)) w), d.
    split; [reflexivity|].
    split_and!; try reflexivity.
    + cbn. now rewrite insert_id.
    + now destruct d.
    + rewrite Hb. exact Happ.
    + cbn. rewrite lookup_insert_ne; [exact Hnode|]. intros Heq. apply Hn. now rewrite <- Heq.
    + intros x. cbn. destruct (decide (List.last l b = x)) as [<-|Hx].
      * rewrite lookup_insert_eq, Hlst. reflexivity.
      * now rewrite lookup_insert_ne.
    + intros x Hx. cbn. rewrite lookup_insert_ne; [reflexivity|]. intros Heq. apply Hx. now rewrite <- Heq.
Qed.

End ListOps.

(** ** Properties of [disk_part_add] *)

Section PartAdd.

Variable vmm_alloc : world -> option ptr.

Implicit Types (h : gmap N disk_part_t) (l : list N) (w : world).

Lemma disk_part_match_blind start size : next_blind (disk_part_match start size).
Proof. intros n p. reflexivity. Qed.

Lemma next_blind_lookup f h h' x :
  next_blind f ->
  set_part_next None <$> h' !! x = set_part_next None <$> h !! x ->
  f <$> h' !! x = f <$> h !! x.
Proof.
  intros Hf Heq. destruct (h' !! x) as [p'|], (h !! x) as [p|]; simpl in *; try congruence.
  assert (Hp : set_part_next None p' = set_part_next None p) by congruence.
  f_equal. rewrite <- (Hf None p'), <- (Hf None p). now rewrite Hp.
Qed.

Lemma first_match_blind f h h' l :
  next_blind f ->
  (forall x, x ∈ l -> set_part_next None <$> h' !! x = set_part_next None <$> h !! x) ->
  first_match h' f l = first_match h f l.
Proof.
  intros Hf. induction l as [|a l IH]; intros Hsame; [reflexivity|]. simpl.
  pose proof (next_blind_lookup f h h' a Hf (Hsame a ltac:(left))) as Ha.
  rewrite IH by (intros x Hx; apply Hsame; now right).
  destruct (h' !! a), (h !! a); simpl in Ha; try congruence.
  injection Ha as ->. reflexivity.
Qed.

Lemma select_blind f h h' l :
  next_blind f ->
  (forall x, x ∈ l -> set_part_next None <$> h' !! x = set_part_next None <$> h !! x) ->
  select h' f l = select h f l.
Proof.
  intros Hf. induction l as [|a l IH]; intros Hsame; [reflexivity|]. simpl.
  pose proof (next_blind_lookup f h h' a Hf (Hsame a ltac:(left))) as Ha.
  rewrite IH by (intros x Hx; apply Hsame; now right).
  destruct (h' !! a), (h !! a); simpl in Ha; try congruence.
  injection Ha as ->. reflexivity.
Qed.

Lemma select_app f h l1 l2 : select h f (l1 ++ l2) = select h f l1 ++ select h f l2.
Proof.
  induction l1 as [|a l1 IH]; [reflexivity|]. simpl.
  destruct (h !! a) as [n|]; [|exact IH]. destruct (f n); simpl; now rewrite IH.
Qed.

Lemma first_match_none_select f h l :
  (forall x, x ∈ l -> is_Some (h !! x)) ->
  first_match h f l = None -> select h f l = [].
Proof.
  induction l as [|a l IH]; intros Hdom; [reflexivity|]. simpl.
  destruct (Hdom a ltac:(left)) as [n ->].
  destruct (f n); [discriminate|].
  apply IH. intros x Hx. apply Hdom. now right.
Qed.

Lemma first_match_none_app f h l l2 :
  (forall x, x ∈ l -> is_Some (h !! x)) ->
  first_match h f l = None ->
  first_match h f (l ++ l2) = first_match h f l2.
Proof.
  induction l as [|a l IH]; intros Hdom; [reflexivity|]. simpl.
  destruct (Hdom a ltac:(left)) as [n ->].
  destruct (f n); [discriminate|].
  apply IH. intros x Hx. apply Hdom. now right.
Qed.

Lemma first_match_some_select f h l x :
  first_match h f l = Some x ->
  (length (select h f l) <= 1)%nat ->
  select h f l = [x].
Proof.
  induction l as [|a l IH]; [discriminate|]. simpl.
  destruct (h !! a) as [n|]; [|discriminate].
  destruct (f n).
  - intros [= ->] Hlen. simpl in Hlen.
    destruct (select h f l); [reflexivity | simpl in Hlen; lia].
  - exact IH.
Qed.

Lemma first_match_some_in f h l x : first_match h f l = Some x -> x ∈ l.
Proof.
  induction l as [|a l IH]; [discriminate|]. simpl.
  destruct (h !! a) as [n|]; [|discriminate].
  destruct (f n); [intros [= ->]; left | intros H; right; auto].
Qed.

(** A partition with this identity exists: it is returned, nothing changes. *)
Lemma disk_part_add_found w a d l start size x :
  disks w !! a = Some d ->
  is_list (parts w) (disk_parts d) l ->
  first_match (parts w) (disk_part_match start size) l = Some x ->
  disk_part_add vmm_alloc (Some a) start size w = (Ret (Some x), w).
Proof.
  intros Hd Hl Hx. unfold disk_part_add.
  rewrite (bind_ret_l _ _ _ _ _ (load_disk_some _ _ _ Hd)), bind_get.
  rewrite (bind_ret_l _ _ _ _ _
             (slist_find_run _ l _ w _ Hl (heap_bound_enough _ _ _ Hl))).
  now rewrite Hx.
Qed.

(** No such partition and no memory: [NULL], nothing changes. *)
Lemma disk_part_add_nomem w a d l start size :
  disks w !! a = Some d ->
  is_list (parts w) (disk_parts d) l ->
  first_match (parts w) (disk_part_match start size) l = None ->
  vmm_alloc w = None ->
  disk_part_add vmm_alloc (Some a) start size w = (Ret None, w).
Proof.
  intros Hd Hl Hx Hm. unfold disk_part_add.
  rewrite (bind_ret_l _ _ _ _ _ (load_disk_some _ _ _ Hd)), bind_get.
  rewrite (bind_ret_l _ _ _ _ _
             (slist_find_run _ l _ w _ Hl (heap_bound_enough _ _ _ Hl))).
  rewrite Hx, bind_get. now rewrite Hm.
Qed.

(** No such partition, and the allocator returns the unused address [n]:
    a zero-filled node with the identity is linked behind the list and the
    counter goes up by one. *)
Lemma disk_part_add_new w a d l start size n :
  disks w !! a = Some d ->
  is_list (parts w) (disk_parts d) l ->
  first_match (parts w) (disk_part_match start size) l = None ->
  vmm_alloc w = Some n ->
  parts w !! n = None ->
  exists w' d',
    disk_part_add vmm_alloc (Some a) start size w = (Ret (Some n), w') /\
    vfs_list w' = vfs_list w /\ io w' = io w /\ trace w' = trace w /\
    disks w' = <[a := d']> (disks w) /\
    d' = set_disk_part_count (disk_part_count d + 1) (set_disk_parts (disk_parts d') d) /\
    is_list (parts w') (disk_parts d') (l ++ [n]) /\
    parts w' !! n = Some (mk_part start size false (Some a) None) /\
    (forall x, x <> n ->
       set_part_next None <$> parts w' !! x = set_part_next None <$> parts w !! x) /\
    (forall x, x ∉ l -> x <> n -> parts w' !! x = parts w !! x).
Proof.
  intros Hd Hl Hx Hm Hn. unfold disk_part_add.
  rewrite (bind_ret_l _ _ _ _ _ (load_disk_some _ _ _ Hd)), bind_get.
  rewrite (bind_ret_l _ _ _ _ _
             (slist_find_run _ l _ w _ Hl (heap_bound_enough _ _ _ Hl))).
  rewrite Hx, bind_get, Hm.
  set (node := mk_part start size false (Some a) None).
  set (w1 := set_parts (<[n := node]> (parts w)) w).
  assert (Hnl : n ∉ l).
  { intros Hin. destruct (is_list_dom _ _ _ _ Hl Hin) as [? ?]. congruence. }
  assert (Hl1 : is_list (parts w1) (disk_parts d) l).
  { eapply is_list_frame; [|exact Hl]. intros x Hxl. subst w1. cbn.
    rewrite lookup_insert_ne; [reflexivity|]. intros ->. contradiction. }
  assert (Hn1 : parts w1 !! n = Some node) by (subst w1; cbn; apply lookup_insert_eq).
  destruct (slist_add_run w1 a d l n node Hd Hl1 Hnl Hn1 eq_refl)
    as (w2 & d2 & Hrun & Hv & Hio & Htr & Hds & Hd2 & Hl2 & Hn2 & Hpay & Hfr).
  unfold bind at 1. cbn beta iota. fold w1.
  rewrite (bind_ret_l _ _ _ _ _ Hrun).
  assert (Hd2' : disks w2 !! a = Some d2) by (rewrite Hds; apply lookup_insert_eq).
  rewrite (bind_ret_l _ _ _ _ _ (modify_disk_some _ _ _ _ Hd2')).
  eexists _, (set_disk_part_count (disk_part_count d2 + 1) d2).
  split; [reflexivity|].
  split_and!; cbn; try done.
  - rewrite Hds. now rewrite insert_insert_eq.
  - rewrite Hd2 at 1 2. reflexivity.
  - intros x Hxn. rewrite Hpay. subst w1. cbn. now rewrite lookup_insert_ne.
  - intros x Hxl Hxn. rewrite Hfr by exact Hxl. subst w1. cbn. now rewrite lookup_insert_ne.
Qed.

End PartAdd.

(** ** Properties of the mark phase *)

Section Mark.

Implicit Types (h : gmap N disk_part_t) (l : list N) (w : world).

Lemma is_list_same_next h h' p l :
  (forall x, x ∈ l -> part_next <$> h' !! x = part_next <$> h !! x) ->
  is_list h p l -> is_list h' p l.
Proof.
  revert p. induction l as [|a l IH]; intros p Hsame; simpl; [auto|].
  intros [-> Hl]. split; [reflexivity|].
  pose proof (Hsame a ltac:(left)) as Ha.
  destruct (h !! a) as [n|]; [|contradiction].
  destruct (h' !! a) as [n'|]; [|discriminate].
  simpl in Ha. injection Ha as ->.
  apply IH; [|exact Hl]. intros x Hx. apply Hsame. now right.
Qed.

Lemma insert_is_alter h a pa (f : disk_part_t -> disk_part_t) :
  h !! a = Some pa -> <[a := f pa]> h = alter f a h.
Proof.
  intros Ha. apply map_eq. intros x. destruct (decide (a = x)) as [<-|Hx].
  - now rewrite lookup_insert_eq, lookup_alter_eq, Ha.
  - now rewrite lookup_insert_ne, lookup_alter_ne.
Qed.

(** Every node of [l] has its flag cleared; no other field changes. *)
Lemma blocked_lookup l :
  forall h x,
    blocked l h !! x =
    if decide (x ∈ l) then set_part_available false <$> h !! x else h !! x.
Proof.
  induction l as [|a l IH]; intros h x; cbn [blocked].
  - destruct (decide (x ∈ [])) as [H|_]; [inversion H | reflexivity].
  - rewrite IH. destruct (decide (a = x)) as [<-|Hax].
    + rewrite lookup_alter_eq.
      destruct (decide (a ∈ a :: l)) as [_|Hn]; [|exfalso; apply Hn; left].
      destruct (decide (a ∈ l)); [now destruct (h !! a) | reflexivity].
    + rewrite lookup_alter_ne by exact Hax.
      destruct (decide (x ∈ l)) as [Hin|Hin], (decide (x ∈ a :: l)) as [Hin'|Hin'];
        try reflexivity.
      * exfalso. apply Hin'. now right.
      * apply elem_of_cons in Hin' as [?|?]; [congruence | contradiction].
Qed.

Lemma blocked_next l h x : part_next <$> blocked l h !! x = part_next <$> h !! x.
Proof.
  rewrite blocked_lookup. destruct (decide (x ∈ l)); [|reflexivity].
  now destruct (h !! x).
Qed.

Lemma disk_part_block_loop_run l :
  forall fuel w p,
    is_list (parts w) p l ->
    (length l < fuel)%nat ->
    disk_part_block_loop fuel p w = (Ret tt, set_parts (blocked l (parts w)) w).
Proof.
  induction l as [|a l IH]; intros fuel w p Hl Hfuel;
    (destruct fuel as [|fuel]; [simpl in Hfuel; lia|]).
  - simpl in *. subst p. now destruct w.
  - pose proof (is_list_NoDup _ _ _ Hl) as Hnd. apply NoDup_cons in Hnd as [Ha _].
    cbn [is_list] in Hl. destruct Hl as [-> Hl].
    destruct (parts w !! a) as [pa|] eqn:Hpa; [|contradiction].
    cbn [disk_part_block_loop].
    rewrite (bind_ret_l _ _ _ _ _ (modify_part_some _ _ _ _ Hpa)).
    set (w1 := set_parts (<[a := set_part_available false pa]> (parts w)) w).
    assert (Hpa1 : parts w1 !! a = Some (set_part_available false pa))
      by (subst w1; cbn; apply lookup_insert_eq).
    rewrite (bind_ret_l _ _ _ _ _ (load_part_some _ _ _ Hpa1)).
    cbn [set_part_available part_next].
    rewrite (IH fuel w1 (part_next pa)).
    + subst w1. cbn. now rewrite (insert_is_alter _ _ _ _ Hpa).
    + eapply is_list_frame; [|exact Hl]. intros x Hx. subst w1. cbn.
      rewrite lookup_insert_ne; [reflexivity|]. intros ->. contradiction.
    + simpl in Hfuel. lia.
Qed.

Lemma disk_part_block_run w a d l :
  disks w !! a = Some d ->
  is_list (parts w) (disk_parts d) l ->
  __disk_part_block (Some a) w = (Ret tt, set_parts (blocked l (parts w)) w).
Proof.
  intros Hd Hl. unfold __disk_part_block.
  rewrite (bind_ret_l _ _ _ _ _ (load_disk_some _ _ _ Hd)), bind_get.
  apply disk_part_block_loop_run; [exact Hl | eapply heap_bound_enough, Hl].
Qed.

End Mark.

(** ** Properties of the sweep phase *)

Section Sweep.

Implicit Types (h : gmap N disk_part_t) (l : list N) (w : world).

Lemma select_length f h l : (length (select h f l) <= length l)%nat.
Proof.
  induction l as [|a l IH]; simpl; [lia|].
  destruct (h !! a) as [n|]; [destruct (f n)|]; simpl; lia.
Qed.

Lemma select_in f h l x : x ∈ select h f l -> x ∈ l.
Proof.
  induction l as [|a l IH]; simpl; [auto|].
  destruct (h !! a) as [n|]; [destruct (f n)|]; rewrite ?elem_of_cons; intuition.
Qed.

Lemma select_frame f h h' l :
  (forall x, x ∈ l -> h' !! x = h !! x) -> select h' f l = select h f l.
Proof.
  induction l as [|a l IH]; intros Hsame; [reflexivity|]. simpl.
  rewrite (Hsame a) by left. rewrite IH by (intros x Hx; apply Hsame; now right).
  reflexivity.
Qed.

Lemma flag_of_frame h h' x : h' !! x = h !! x -> flag_of h' x = flag_of h x.
Proof. intros H. unfold flag_of. now rewrite H. Qed.

Lemma clear_vfs_frame h h' l :
  (forall x, x ∈ l -> h' !! x = h !! x) ->
  forall vs, clear_vfs h' l vs = clear_vfs h l vs /\
             clear_events h' l vs = clear_events h l vs.
Proof.
  induction l as [|a l IH]; intros Hsame vs; [split; reflexivity|]. simpl.
  rewrite (flag_of_frame h h' a) by (apply Hsame; left).
  destruct (IH (fun x Hx => Hsame x (list_elem_of_further _ _ _ Hx))
               (clear_vfs_step a (flag_of h a) vs)) as [-> ->].
  split; reflexivity.
Qed.

(** The registry calls of one round. *)
Lemma clear_round_available t w :
  (match find_vfs t (vfs_list w) with
   | None => vfs_register VFS_TYPE_DISK t
   | Some _ => ret tt
   end) w = (Ret tt, after_vfs t true w).
Proof.
  unfold after_vfs, clear_vfs_step, clear_events_step.
  destruct (find_vfs t (vfs_list w)); [|reflexivity].
  unfold ret. rewrite app_nil_r. now destruct w.
Qed.

Lemma clear_round_unavailable t w :
  (match find_vfs t (vfs_list w) with
   | Some c => vfs_unregister c
   | None => ret tt
   end) w = (Ret tt, after_vfs t false w).
Proof.
  unfold after_vfs, clear_vfs_step, clear_events_step.
  destruct (find_vfs t (vfs_list w)); [reflexivity|].
  unfold ret. rewrite app_nil_r. now destruct w.
Qed.

Lemma disk_fields_same d p n :
  disk_parts d = p -> disk_part_count d = n ->
  d = set_disk_part_count n (set_disk_parts p d).
Proof. intros <- <-. now destruct d. Qed.

(** The loop of [disk_part_clear], started at the node behind [pre]. *)
Lemma disk_part_clear_loop_run l :
  forall fuel w a d trav pre,
    (length l < fuel)%nat ->
    disks w !! a = Some d ->
    is_list (parts w) trav l ->
    match pre with
    | None => disk_parts d = trav
    | Some q => (q ∉ l) /\ (exists pq, parts w !! q = Some pq /\ part_next pq = trav)
    end ->
    exists w',
      disk_part_clear_loop fuel (Some a) trav pre w = (Ret tt, w') /\
      clear_post a d l pre w w'.
Proof.
  induction l as [|t l IH]; intros fuel w a d trav pre Hfuel Hd Hl Hpre;
    (destruct fuel as [|fuel]; [simpl in Hfuel; lia|]).
  - cbn [is_list] in Hl. subst trav. exists w. split; [reflexivity|].
    unfold clear_post. cbn [select clear_vfs clear_events length].
    split_and!; try done.
    + now rewrite app_nil_r.
    + exists d. split_and!.
      * now rewrite insert_id.
      * apply disk_fields_same; [reflexivity | simpl; lia].
      * destruct pre as [q|]; [|exact Hpre].
        destruct Hpre as (_ & pq & Hq & Hn). split; [reflexivity|].
        exists pq. rewrite Hq. split_and!; try done.
  - pose proof (is_list_NoDup _ _ _ Hl) as Hnd. apply NoDup_cons in Hnd as [Ht _].
    cbn [is_list] in Hl. destruct Hl as [-> Hl].
    destruct (parts w !! t) as [pt|] eqn:Hpt; [|contradiction].
    cbn [disk_part_clear_loop].
    unfold bind at 1, __disk_part_find_vfs at 1.
    rewrite (bind_ret_l _ _ _ _ _ (load_part_some _ _ _ Hpt)).
    destruct (part_available pt) eqn:Hav.
    + rewrite (bind_ret_l _ _ _ _ _ (clear_round_available t w)).
      set (w1 := after_vfs t true w).
      assert (Hpt1 : parts w1 !! t = Some pt) by exact Hpt.
      rewrite (bind_ret_l _ _ _ _ _ (load_part_some _ _ _ Hpt1)).
      destruct (IH fuel w1 a d (part_next pt) (Some t)) as (w' & Hrun & Hpost);
        [simpl in Hfuel; lia | exact Hd | exact Hl | split; [exact Ht | eauto] |].
      exists w'. split; [exact Hrun|].
      assert (Hflag : flag_of (parts w) t = true) by (unfold flag_of; now rewrite Hpt).
      destruct Hpost as (Hio & Hvfs & Htr & (d' & Hds & Hd' & Hdp & pt' & Hpt' & Hpay & Hl')
                         & Hrem & Hkept & Hframe).
      change (parts w1) with (parts w) in *.
      unfold clear_post. cbn [select clear_vfs clear_events].
      rewrite Hpt, Hav, Hflag.
      split_and!.
      * exact Hio.
      * exact Hvfs.
      * rewrite Htr. subst w1. cbn [after_vfs trace vfs_list]. now rewrite app_assoc.
      * exists d'. split_and!; [exact Hds | exact Hd' |].
        assert (Hlt : is_list (parts w') (Some t) (t :: select (parts w) part_available l)).
        { cbn [is_list]. split; [reflexivity|]. now rewrite Hpt'. }
        destruct pre as [q|].
        -- destruct Hpre as (Hq & pq & Hpq & Hnq). split; [exact Hdp|].
           exists pq. rewrite Hpq.
           apply not_elem_of_cons in Hq as [Hqt Hql].
           split_and!; [|reflexivity|now rewrite Hnq].
           rewrite Hframe; [exact Hpq | exact Hql | congruence].
        -- now rewrite Hdp, Hpre.
      * intros x Hx Hx'. apply not_elem_of_cons in Hx' as [Hxt Hx'].
        apply elem_of_cons in Hx as [->|Hx]; [contradiction|]. now apply Hrem.
      * intros x [->|Hx]%elem_of_cons; [|now apply Hkept].
        rewrite Hpt', Hpt. rewrite Hpt in Hpay. simpl in *. congruence.
      * intros x Hx Hxp. apply not_elem_of_cons in Hx as [Hxt Hx].
        apply Hframe; [exact Hx | congruence].
    + rewrite (bind_ret_l _ _ _ _ _ (clear_round_unavailable t w)).
      set (w1 := after_vfs t false w).
      set (dc := set_disk_part_count (disk_part_count d - 1) d).
      assert (Hd1 : disks w1 !! a = Some d) by exact Hd.
      rewrite (bind_ret_l _ _ _ _ _ (modify_disk_some _ _ _ _ Hd1)).
      fold dc. set (w2 := set_disks (<[a := dc]> (disks w1)) w1).
      assert (Hflag : flag_of (parts w) t = false) by (unfold flag_of; now rewrite Hpt).
      assert (Hpt2 : parts w2 !! t = Some pt) by exact Hpt.
      assert (Hlen : (length (select (parts w) part_available l) <= length l)%nat)
        by apply select_length.
      destruct pre as [q|].
      * destruct Hpre as (Hq & pq & Hpq & Hnq).
        apply not_elem_of_cons in Hq as [Hqt Hql].
        rewrite (bind_ret_l _ _ _ _ _ (load_part_some _ _ _ Hpt2)).
        assert (Hpq2 : parts w2 !! q = Some pq) by exact Hpq.
        rewrite (bind_ret_l _ _ _ _ _ (modify_part_some _ _ _ _ Hpq2)).
        set (w3 := set_parts _ w2).
        unfold bind at 1, vmm_free at 1.
        set (w4 := set_parts (delete t (parts w3)) w3).
        assert (Hpq4 : parts w4 !! q = Some (set_part_next (part_next pt) pq)).
        { subst w4 w3. cbn. rewrite lookup_delete_ne by congruence. apply lookup_insert_eq. }
        rewrite (bind_ret_l _ _ _ _ _ (load_part_some _ _ _ Hpq4)).
        cbn [set_part_next part_next].
        assert (Hsame : forall x, x <> t -> x <> q -> parts w4 !! x = parts w !! x).
        { intros x Hxt Hxq. subst w4 w3. cbn.
          rewrite lookup_delete_ne by congruence. now rewrite lookup_insert_ne by congruence. }
        assert (Hsame_l : forall x, x ∈ l -> parts w4 !! x = parts w !! x).
        { intros x Hx. apply Hsame; intros ->; contradiction. }
        assert (Hd4 : disks w4 !! a = Some dc) by (subst w4 w3 w2; cbn; apply lookup_insert_eq).
        destruct (IH fuel w4 a dc (part_next pt) (Some q)) as (w' & Hrun & Hpost);
          [simpl in Hfuel; lia | exact Hd4
          | eapply is_list_frame; [exact Hsame_l | exact Hl]
          | split; [exact Hql | eauto] |].
        exists w'. split; [exact Hrun|].
        destruct Hpost as (Hio & Hvfs & Htr & (d' & Hds & Hd' & Hdp & pq' & Hpq' & Hpay & Hl')
                           & Hrem & Hkept & Hframe).
        rewrite (select_frame _ _ _ _ Hsame_l) in Hd', Hl', Hrem, Hkept.
        destruct (clear_vfs_frame _ _ _ Hsame_l (vfs_list w4)) as [Hcv Hce].
        rewrite Hcv in Hvfs. rewrite Hce in Htr.
        unfold clear_post. cbn [select clear_vfs clear_events].
        rewrite Hpt, Hav, Hflag.
        split_and!.
        -- exact Hio.
        -- exact Hvfs.
        -- rewrite Htr. subst w4 w3 w2 w1. cbn [after_vfs set_parts set_disks trace vfs_list].
           now rewrite app_assoc.
        -- exists d'. split_and!.
           ++ rewrite Hds. subst w4 w3 w2 w1. cbn. now rewrite insert_insert_eq.
           ++ rewrite Hd' at 1. unfold set_disk_part_count, set_disk_parts, dc. cbn.
              f_equal. lia.
           ++ exact Hdp.
           ++ exists pq'. rewrite Hpq4 in Hpay. rewrite Hpq. split_and!; done.
        -- intros x Hx Hx'. apply elem_of_cons in Hx as [->|Hx]; [|now apply Hrem].
           rewrite Hframe; [|exact Ht|congruence].
           subst w4. cbn. apply lookup_delete_eq.
        -- intros x Hx. rewrite Hkept by exact Hx. f_equal.
           apply Hsame_l. eapply select_in, Hx.
        -- intros x Hx Hxq. apply not_elem_of_cons in Hx as [Hxt Hx].
           rewrite Hframe by assumption. apply Hsame; congruence.
      * rewrite (bind_ret_l _ _ _ _ _ (load_part_some _ _ _ Hpt2)).
        assert (Hd2 : disks w2 !! a = Some dc) by (subst w2; cbn; apply lookup_insert_eq).
        rewrite (bind_ret_l _ _ _ _ _ (modify_disk_some _ _ _ _ Hd2)).
        set (d3 := set_disk_parts (part_next pt) dc).
        set (w3 := set_disks _ w2).
        unfold bind at 1, vmm_free at 1.
        set (w4 := set_parts (delete t (parts w3)) w3).
        assert (Hd4 : disks w4 !! a = Some d3) by (subst w4 w3; cbn; apply lookup_insert_eq).
        rewrite (bind_ret_l _ _ _ _ _ (load_disk_some _ _ _ Hd4)).
        assert (Hsame : forall x, x <> t -> parts w4 !! x = parts w !! x).
        { intros x Hxt. subst w4 w3. cbn. now rewrite lookup_delete_ne by congruence. }
        assert (Hsame_l : forall x, x ∈ l -> parts w4 !! x = parts w !! x).
        { intros x Hx. apply Hsame; intros ->; contradiction. }
        destruct (IH fuel w4 a d3 (disk_parts d3) None) as (w' & Hrun & Hpost);
          [simpl in Hfuel; lia | exact Hd4
          | eapply is_list_frame; [exact Hsame_l | exact Hl]
          | reflexivity |].
        exists w'. split; [exact Hrun|].
        destruct Hpost as (Hio & Hvfs & Htr & (d' & Hds & Hd' & Hl') & Hrem & Hkept & Hframe).
        rewrite (select_frame _ _ _ _ Hsame_l) in Hd', Hl', Hrem, Hkept.
        destruct (clear_vfs_frame _ _ _ Hsame_l (vfs_list w4)) as [Hcv Hce].
        rewrite Hcv in Hvfs. rewrite Hce in Htr.
        unfold clear_post. cbn [select clear_vfs clear_events].
        rewrite Hpt, Hav, Hflag.
        split_and!.
        -- exact Hio.
        -- exact Hvfs.
        -- rewrite Htr. subst w4 w3 w2 w1. cbn [after_vfs set_parts set_disks trace vfs_list].
           now rewrite app_assoc.
        -- exists d'. split_and!.
           ++ rewrite Hds. subst w4 w3 w2 w1. cbn. now rewrite !insert_insert_eq.
           ++ rewrite Hd' at 1. unfold set_disk_part_count, set_disk_parts, d3, dc. cbn.
              f_equal. lia.
           ++ exact Hl'.
        -- intros x Hx Hx'. apply elem_of_cons in Hx as [->|Hx]; [|now apply Hrem].
           rewrite Hframe; [|exact Ht|congruence].
           subst w4. cbn. apply lookup_delete_eq.
        -- intros x Hx. rewrite Hkept by exact Hx. f_equal.
           apply Hsame_l. eapply select_in, Hx.
        -- intros x Hx Hxq. apply not_elem_of_cons in Hx as [Hxt Hx].
           rewrite Hframe by assumption. apply Hsame; congruence.
Qed.

End Sweep.

(** ** The partition list and its counter *)

Section Partitions.

Variable vmm_alloc : world -> option ptr.

Implicit Types (h : gmap N disk_part_t) (l : list N) (w : world).

Lemma disk_part_clear_run w a d l :
  disks w !! a = Some d ->
  is_list (parts w) (disk_parts d) l ->
  exists w', disk_part_clear (Some a) w = (Ret tt, w') /\ clear_post a d l None w w'.
Proof.
  intros Hd Hl. unfold disk_part_clear.
  rewrite (bind_ret_l _ _ _ _ _ (load_disk_some _ _ _ Hd)), bind_get.
  apply disk_part_clear_loop_run; auto.
  eapply heap_bound_enough, Hl.
Qed.

(** A disk as [disk_add] creates it has no partitions and counts none. *)
Lemma part_count_initial w a controller data :
  disks w !! a = Some (disk_add_struct controller data) ->
  part_count_is w a [].
Proof. intros Hd. eexists. split; [exact Hd|]. split; reflexivity. Qed.

(** A change confined to the disk [a], the nodes of its list [l] and
    unused addresses leaves the other disks as they were. *)
Lemma others_kept_frame w w' a l d' :
  disks w' = <[a := d']> (disks w) ->
  (forall x, x ∉ l -> is_Some (parts w !! x) -> parts w' !! x = parts w !! x) ->
  others_kept w w' a l.
Proof.
  intros Hds Hps b lb Hb (db & Hdb & Hlb & Hcb) Hdisj.
  exists db. split_and!; [| |exact Hcb].
  - rewrite Hds, lookup_insert_ne by congruence. exact Hdb.
  - eapply is_list_frame; [|exact Hlb]. intros x Hx.
    apply Hps; [now apply Hdisj | eapply is_list_dom; eauto].
Qed.

(** C8: when the counter of a disk equals the length of its partition
    list, it still does after [disk_part_add] and after [disk_part_clear]:
    [disk_part_add] either leaves list and counter alone or links one new
    node behind the list and adds one; [disk_part_clear] keeps the flagged
    nodes, frees every other node of the list and takes one off the counter
    for each.  Both leave the list and the counter of every other disk
    alone, so the equality holds for every disk once it holds for each. *)
Theorem part_count_preserved w a l start size :
  part_count_is w a l ->
  (forall n, vmm_alloc w = Some n -> parts w !! n = None) ->
  (exists r w' l',
     disk_part_add vmm_alloc (Some a) start size w = (Ret r, w') /\
     part_count_is w' a l' /\
     ((l' = l /\ count_of w' a = count_of w a) \/
      (exists n, r = Some n /\ parts w !! n = None /\ l' = l ++ [n] /\
                 count_of w' a = Z.succ <$> count_of w a)) /\
     others_kept w w' a l) /\
  (exists w',
     disk_part_clear (Some a) w = (Ret tt, w') /\
     part_count_is w' a (select (parts w) part_available l) /\
     (forall x, x ∈ l -> x ∉ select (parts w) part_available l -> parts w' !! x = None) /\
     count_of w' a =
       Some (Z.of_nat (length l) -
             Z.of_nat (length l - length (select (parts w) part_available l))) /\
     others_kept w w' a l).
Proof.
  intros (d & Hd & Hl & Hc) Hfresh.
  assert (Hsame : others_kept w w a l).
  { apply (others_kept_frame w w a l d); [now rewrite insert_id | auto]. }
  split.
  - destruct (first_match (parts w) (disk_part_match start size) l) as [x|] eqn:Hx.
    + exists (Some x), w, l. split; [eapply disk_part_add_found; eauto|].
      split; [exists d; auto|]. split; [left; auto | exact Hsame].
    + destruct (vmm_alloc w) as [n|] eqn:Hm.
      * destruct (disk_part_add_new vmm_alloc w a d l start size n Hd Hl Hx Hm (Hfresh n eq_refl))
          as (w' & d' & Hrun & _ & _ & _ & Hds & Hd' & Hl' & _ & _ & Hframe).
        exists (Some n), w', (l ++ [n]). split; [exact Hrun|].
        assert (Hda : disks w' !! a = Some d') by (rewrite Hds; apply lookup_insert_eq).
        assert (Hcnt : disk_part_count d' = disk_part_count d + 1) by (now rewrite Hd').
        split_and!.
        -- exists d'. split_and!; [exact Hda | exact Hl' |].
           rewrite Hcnt, Hc, length_app. simpl. lia.
        -- right. exists n. split_and!; auto.
           unfold count_of. rewrite Hda, Hd. simpl. f_equal. lia.
        -- apply (others_kept_frame w w' a l d' Hds). intros x Hx' [p Hp].
           apply Hframe; [exact Hx'|]. intros ->. rewrite (Hfresh n eq_refl) in Hp. discriminate.
      * exists None, w, l. split; [eapply disk_part_add_nomem; eauto|].
        split; [exists d; auto|]. split; [left; auto | exact Hsame].
  - destruct (disk_part_clear_run w a d l Hd Hl) as (w' & Hrun & Hpost).
    destruct Hpost as (_ & _ & _ & (d' & Hds & Hd' & Hl') & Hrem & _ & Hframe).
    pose proof (select_length part_available (parts w) l) as Hlen.
    assert (Hda : disks w' !! a = Some d') by (rewrite Hds; apply lookup_insert_eq).
    assert (Hcnt : disk_part_count d' =
                   disk_part_count d -
                   Z.of_nat (length l - length (select (parts w) part_available l)))
      by (now rewrite Hd').
    exists w'. split_and!; [exact Hrun | | exact Hrem | |].
    + exists d'. split_and!; [exact Hda | exact Hl' |]. rewrite Hcnt, Hc. lia.
    + unfold count_of. rewrite Hda. simpl. now rewrite Hcnt, Hc.
    + apply (others_kept_frame w w' a l d' Hds). intros x Hx _.
      apply Hframe; [exact Hx | discriminate].
Qed.

(** [disk_part_add] keeps invariant I2. *)
Lemma disk_part_add_keeps_identities w a l start size r w' :
  disk_list w a l ->
  identities_unique w a ->
  (forall n, vmm_alloc w = Some n -> parts w !! n = None) ->
  disk_part_add vmm_alloc (Some a) start size w = (r, w') ->
  identities_unique w' a.
Proof.
  unfold disk_list. intros Hdl Huniq Hfresh Hrun.
  destruct (disks w !! a) as [d|] eqn:Hd; [|contradiction].
  destruct (first_match (parts w) (disk_part_match start size) l) as [y|] eqn:Hy.
  - rewrite (disk_part_add_found vmm_alloc w a d l start size y Hd Hdl Hy) in Hrun.
    now injection Hrun as <- <-.
  - destruct (vmm_alloc w) as [n|] eqn:Hm.
    + destruct (disk_part_add_new vmm_alloc w a d l start size n Hd Hdl Hy Hm (Hfresh n eq_refl))
        as (w1 & d1 & Hrun1 & _ & _ & _ & Hds & _ & Hl1 & Hn & Hpay & _).
      rewrite Hrun1 in Hrun. injection Hrun as <- <-.
      intros l2 s z Hl2. unfold disk_list in Hl2.
      rewrite Hds, lookup_insert_eq in Hl2.
      rewrite (is_list_inj _ _ _ _ Hl2 Hl1).
      assert (Hnl : n ∉ l).
      { intros Hin. destruct (is_list_dom _ _ _ _ Hdl Hin) as [? Hp].
        rewrite (Hfresh n eq_refl) in Hp. discriminate. }
      assert (Hsel : select (parts w1) (disk_part_match s z) l =
                     select (parts w) (disk_part_match s z) l).
      { apply select_blind; [apply disk_part_match_blind|].
        intros x Hx. apply Hpay. intros ->. contradiction. }
      rewrite select_app, Hsel, length_app. cbn [select]. rewrite Hn.
      assert (Hold : (length (select (parts w) (disk_part_match s z) l) <= 1)%nat).
      { apply Huniq. unfold disk_list. now rewrite Hd. }
      destruct (disk_part_match s z (mk_part start size false (Some a) None)) eqn:Hmatch;
        [|simpl; lia].
      unfold disk_part_match in Hmatch. cbn in Hmatch.
      apply andb_true_iff in Hmatch as [Hs Hz].
      apply Z.eqb_eq in Hs, Hz. subst s z.
      rewrite (first_match_none_select _ _ l (fun x Hx => is_list_dom _ _ _ _ Hdl Hx) Hy).
      simpl. lia.
    + rewrite (disk_part_add_nomem vmm_alloc w a d l start size Hd Hdl Hy Hm) in Hrun.
      now injection Hrun as <- <-.
Qed.

(** C2, as the code has it: [disk_part_add] never sets the flag.  A match
    is returned with the world unchanged, so the flag of the existing entry
    stays as it was; a new entry is zero-filled, so its flag is false, and
    only its start, size and disk are set. *)
Theorem disk_part_add_flag w a d l start size :
  disks w !! a = Some d ->
  is_list (parts w) (disk_parts d) l ->
  (forall n, vmm_alloc w = Some n -> parts w !! n = None) ->
  match first_match (parts w) (disk_part_match start size) l with
  | Some x => disk_part_add vmm_alloc (Some a) start size w = (Ret (Some x), w)
  | None =>
      match vmm_alloc w with
      | Some n =>
          exists w',
            disk_part_add vmm_alloc (Some a) start size w = (Ret (Some n), w') /\
            parts w' !! n = Some (mk_part start size false (Some a) None)
      | None => disk_part_add vmm_alloc (Some a) start size w = (Ret None, w)
      end
  end.
Proof.
  intros Hd Hl Hfresh.
  destruct (first_match (parts w) (disk_part_match start size) l) as [x|] eqn:Hx.
  - eapply disk_part_add_found; eauto.
  - destruct (vmm_alloc w) as [n|] eqn:Hm.
    + destruct (disk_part_add_new vmm_alloc w a d l start size n Hd Hl Hx Hm (Hfresh n eq_refl))
        as (w' & d' & Hrun & _ & _ & _ & _ & _ & _ & Hn & _).
      exists w'. auto.
    + eapply disk_part_add_nomem; eauto.
Qed.

(** C6: on a disk whose list holds at most one partition with the identity
    [(start, size)], when [disk_part_add] has returned a partition, a second
    call with the same identity returns the same partition and changes
    nothing, the counter included, and the list holds exactly that one
    partition with the identity. *)
Theorem disk_part_add_idempotent w a l start size x w1 :
  disk_list w a l ->
  (length (select (parts w) (disk_part_match start size) l) <= 1)%nat ->
  (forall n, vmm_alloc w = Some n -> parts w !! n = None) ->
  disk_part_add vmm_alloc (Some a) start size w = (Ret (Some x), w1) ->
  disk_part_add vmm_alloc (Some a) start size w1 = (Ret (Some x), w1) /\
  count_of (snd (disk_part_add vmm_alloc (Some a) start size w1)) a = count_of w1 a /\
  exists l1,
    disk_list w1 a l1 /\
    select (parts w1) (disk_part_match start size) l1 = [x].
Proof.
  unfold disk_list. intros Hdl Hone Hfresh Hrun.
  destruct (disks w !! a) as [d|] eqn:Hd; [|contradiction].
  assert (Hgoal : exists l1 d1,
             disks w1 !! a = Some d1 /\ is_list (parts w1) (disk_parts d1) l1 /\
             first_match (parts w1) (disk_part_match start size) l1 = Some x /\
             select (parts w1) (disk_part_match start size) l1 = [x]).
  { destruct (first_match (parts w) (disk_part_match start size) l) as [y|] eqn:Hy.
    - rewrite (disk_part_add_found vmm_alloc w a d l start size y Hd Hdl Hy) in Hrun.
      injection Hrun as -> ->.
      exists l, d. split_and!; auto. now apply first_match_some_select.
    - destruct (vmm_alloc w) as [n|] eqn:Hm.
      + destruct (disk_part_add_new vmm_alloc w a d l start size n Hd Hdl Hy Hm (Hfresh n eq_refl))
          as (w' & d' & Hrun' & _ & _ & _ & Hds & Hd' & Hl' & Hn & Hpay & _).
        rewrite Hrun' in Hrun. injection Hrun as <- <-.
        assert (Hnl : n ∉ l).
        { intros Hin. destruct (is_list_dom _ _ _ _ Hdl Hin) as [? ?].
          rewrite (Hfresh n eq_refl) in *. discriminate. }
        assert (Hpay_l : forall y, y ∈ l ->
                  set_part_next None <$> parts w' !! y = set_part_next None <$> parts w !! y).
        { intros y Hyl. apply Hpay. intros ->. contradiction. }
        assert (Hdom : forall y, y ∈ l -> is_Some (parts w' !! y)).
        { intros y Hyl. eapply is_list_dom; [exact Hl'|]. apply elem_of_app. now left. }
        assert (Hfm : first_match (parts w') (disk_part_match start size) l = None).
        { rewrite (first_match_blind _ (parts w) (parts w') l
                     (disk_part_match_blind start size) Hpay_l). exact Hy. }
        assert (Hmatch : disk_part_match start size (mk_part start size false (Some a) None) = true).
        { unfold disk_part_match. cbn. now rewrite !Z.eqb_refl. }
        exists (l ++ [n]), d'. split_and!.
        * rewrite Hds. apply lookup_insert_eq.
        * exact Hl'.
        * rewrite (first_match_none_app _ _ _ _ Hdom Hfm). cbn. now rewrite Hn, Hmatch.
        * rewrite select_app, (first_match_none_select _ _ _ Hdom Hfm). cbn.
          now rewrite Hn, Hmatch.
      + rewrite (disk_part_add_nomem vmm_alloc w a d l start size Hd Hdl Hy Hm) in Hrun.
        discriminate. }
  destruct Hgoal as (l1 & d1 & Hd1 & Hl1 & Hfm & Hsel).
  pose proof (disk_part_add_found vmm_alloc w1 a d1 l1 start size x Hd1 Hl1 Hfm) as Hagain.
  split; [exact Hagain|]. split; [now rewrite Hagain|].
  exists l1. rewrite Hd1. auto.
Qed.

End Partitions.

(** ** Properties of [disk_scan] *)

Section Scan.

Variable ahci_port_do :
  option ptr -> disk_op_t -> Z -> Z -> bufptr -> iomem -> bool * iomem.
Variable CONFIG_CORE_GPT : bool.
Variable gpt_load : option ptr -> M bool.
Variable mbr_load : option ptr -> M bool.

Implicit Types (h : gmap N disk_part_t) (l : list N) (w : world).

(** The info query of [disk_scan] touches neither disks, partitions nor
    mounts. *)
Lemma disk_do_info_frame w a d r w' :
  disks w !! a = Some d ->
  disk_do ahci_port_do (Some a) DISK_OP_INFO 0 0 None w = (r, w') ->
  disks w' = disks w /\ parts w' = parts w /\ vfs_list w' = vfs_list w.
Proof.
  intros Hd. unfold disk_do, __disk_do_size.
  rewrite (bind_ret_l _ _ _ _ _ (load_disk_some _ _ _ Hd)).
  unfold div_floor, umod. destruct (disk_sector_size d =? 0).
  - unfold bind, undef. intros [= <- <-]. auto.
  - unfold bind at 1, ret at 1. unfold bind at 1, ret at 1.
    change (0 mod disk_sector_size d) with 0. cbn [Z.eqb].
    intros Hrun.
    pose proof (disk_do_raw_frame ahci_port_do w a d DISK_OP_INFO 0
                  (0 / disk_sector_size d) None Hd) as Hf.
    rewrite Hrun in Hf. cbn in Hf. tauto.
Qed.

(** The statements of [disk_scan] up to the info query. *)
Lemma disk_scan_mark_run w a d l :
  disks w !! a = Some d ->
  is_list (parts w) (disk_parts d) l ->
  disk_scan ahci_port_do CONFIG_CORE_GPT gpt_load mbr_load (Some a) w =
  bind (disk_do ahci_port_do (Some a) DISK_OP_INFO 0 0 None)
       (fun info =>
          if negb info then ret false
          else
            let* parsed := disk_scan_parse CONFIG_CORE_GPT gpt_load mbr_load (Some a) in
            if negb parsed then ret false
            else
              run disk_part_clear (Some a) in
              run modify_disk (Some a) (set_disk_available true) in
              ret true)
       (scan_marked a d l w).
Proof.
  intros Hd Hl. unfold disk_scan.
  rewrite (bind_ret_l _ _ _ _ _ (modify_disk_some _ _ _ _ Hd)).
  set (w1 := set_disks _ w).
  assert (Hd1 : disks w1 !! a = Some (set_disk_available false d))
    by (subst w1; cbn; apply lookup_insert_eq).
  rewrite (bind_ret_l _ _ _ _ _ (disk_part_block_run w1 a _ l Hd1 Hl)).
  reflexivity.
Qed.

(** C5: when the info query of [disk_scan] returns false, [disk_scan]
    returns false.  Afterwards the disk is not available ([available] is
    false), its counter, its list head and its other fields are what they
    were, no partition has been deleted: every node of the list is still
    on the heap with its flag false and its start, size, disk and link
    unchanged, the list is still the same list, no other node has changed,
    and no mount has been touched. *)
Theorem disk_scan_info_failure w a d l w2 :
  disks w !! a = Some d ->
  is_list (parts w) (disk_parts d) l ->
  disk_do ahci_port_do (Some a) DISK_OP_INFO 0 0 None (scan_marked a d l w) = (Ret false, w2) ->
  disk_scan ahci_port_do CONFIG_CORE_GPT gpt_load mbr_load (Some a) w = (Ret false, w2) /\
  (exists d2,
     disks w2 !! a = Some d2 /\
     disk_available d2 = false /\
     disk_part_count d2 = disk_part_count d /\
     disk_parts d2 = disk_parts d /\
     disk_controller d2 = disk_controller d /\
     disk_data d2 = disk_data d /\
     disk_sector_size d2 = disk_sector_size d) /\
  is_list (parts w2) (disk_parts d) l /\
  (forall x, x ∈ l ->
     exists p p',
       parts w !! x = Some p /\
       parts w2 !! x = Some p' /\
       part_available p' = false /\
       part_start p' = part_start p /\
       part_size p' = part_size p /\
       part_disk p' = part_disk p /\
       part_next p' = part_next p) /\
  (forall x, x ∉ l -> parts w2 !! x = parts w !! x) /\
  vfs_list w2 = vfs_list w.
Proof.
  intros Hd Hl Hinfo.
  assert (Hdm : disks (scan_marked a d l w) !! a = Some (set_disk_available false d))
    by (cbn; apply lookup_insert_eq).
  destruct (disk_do_info_frame _ _ _ _ _ Hdm Hinfo) as (Hds & Hps & Hvs).
  split_and!.
  - rewrite (disk_scan_mark_run w a d l Hd Hl).
    now rewrite (bind_ret_l _ _ _ _ _ Hinfo).
  - exists (set_disk_available false d). rewrite Hds.
    split; [exact Hdm|]. split_and!; reflexivity.
  - rewrite Hps. cbn. eapply is_list_same_next; [|exact Hl].
    intros x _. apply blocked_next.
  - intros x Hx. destruct (is_list_dom _ _ _ _ Hl Hx) as [p Hp].
    exists p, (set_part_available false p). split; [exact Hp|].
    split; [|split_and!; reflexivity].
    rewrite Hps. cbn. rewrite blocked_lookup, decide_True by exact Hx. now rewrite Hp.
  - intros x Hx. rewrite Hps. cbn. now rewrite blocked_lookup, decide_False by exact Hx.
  - exact Hvs.
Qed.



End Scan.

(** ** Worked scenarios *)

(** C1: the scenario of the specification, as the code runs it.  A read of
    1300 bytes at lba 10 with 512-byte sectors makes two single-sector raw
    reads into the caller's buffer at offsets 0 and 512, one into the local
    array, and copies 276 bytes to offset 1024; but [lba] is never
    advanced, so all three raw reads address sector 10, not 10, 11, 12. *)
Theorem disk_do_size_example_trace :
  let r := __disk_do_size (sim_port_do 100) (Some 1%N) DISK_OP_READ 10 1300
             (Some (Caller, 0)) sim_world in
  fst r = Ret true /\
  trace (snd r) =
    [EvRaw DISK_OP_READ 10 1 (Some (Caller, 0));
     EvRaw DISK_OP_READ 10 1 (Some (Caller, 512));
     EvRaw DISK_OP_READ 10 1 (Some (Scratch, 0));
     EvCopy (Some (Caller, 1024)) (Some (Scratch, 0)) 276].
Proof. vm_compute. split; reflexivity. Qed.

(** C3: a write of 100 bytes at lba 0, as the code runs it.  The raw write
    sends the local array, which the caller's bytes never entered, and the
    copy then goes from the local array to the caller, as for a read: the
    medium ends up with the bytes of the local array (0xff) instead of the
    caller's (0x01), and the first 100 bytes of the caller's buffer are
    overwritten. *)
Theorem disk_do_size_write_tail :
  let r := __disk_do_size (sim_port_do 100) (Some 1%N) DISK_OP_WRITE 0 100
             (Some (Caller, 0)) sim_world in
  fst r = Ret true /\
  trace (snd r) =
    [EvRaw DISK_OP_WRITE 0 1 (Some (Scratch, 0));
     EvCopy (Some (Caller, 0)) (Some (Scratch, 0)) 100] /\
  io sim_world Caller 0 = x01 /\
  io (snd r) Device 0 = xff /\ io (snd r) Device 99 = xff /\
  io (snd r) Caller 0 = xff /\ io (snd r) Caller 99 = xff /\
  io (snd r) Caller 100 = x01.
Proof. vm_compute. repeat split; reflexivity. Qed.

Lemma disk_do_raw_dispatch_witness :
  fst (__disk_do_raw (sim_port_do 100) (Some 1%N) DISK_OP_READ 0 1 (Some (Caller, 0))
         sim_world) = Ret true /\
  fst (__disk_do_raw (sim_port_do 100) (Some 2%N) DISK_OP_READ 0 1 (Some (Caller, 0))
         sim_world_unknown) = Panic.
Proof.
  split.
  - apply (disk_do_raw_dispatch (sim_port_do 100) sim_world 1%N sim_disk). reflexivity.
  - apply (disk_do_raw_dispatch (sim_port_do 100) sim_world_unknown 2%N
             (mk_disk (DISK_CONTROLLER_OTHER 9) (Some 7%N) 512 false None 0)).
    reflexivity.
Defined.

Lemma disk_do_size_aligned_witness :
  __disk_do_size (sim_port_do 100) (Some 1%N) DISK_OP_READ 10 1024 (Some (Caller, 0)) sim_world =
    __disk_do_raw (sim_port_do 100) (Some 1%N) DISK_OP_READ 10 2 (Some (Caller, 0)) sim_world /\
  trace (snd (__disk_do_size (sim_port_do 100) (Some 1%N) DISK_OP_READ 10 1024
                (Some (Caller, 0)) sim_world)) =
    [EvRaw DISK_OP_READ 10 2 (Some (Caller, 0))].
Proof.
  apply (disk_do_size_aligned (sim_port_do 100) sim_world 1%N sim_disk DISK_OP_READ 10 1024
           (Some (Caller, 0))).
  - reflexivity.
  - simpl. lia.
  - reflexivity.
Defined.

Lemma disk_do_size_failed_tail_witness :
  let port := stack_blind_port_do 100 in
  let w1 := snd (disk_do_size_whole port (Some 1%N) DISK_OP_READ 10 1300 (Some (Caller, 0))
                   (1300 / 512) (1300 mod 512) sim_world) in
  let w2 := snd (__disk_do_raw port (Some 1%N) DISK_OP_READ 10 1 (Some (Scratch, 0)) w1) in
  exists w',
    __disk_do_size port (Some 1%N) DISK_OP_READ 10 1300 (Some (Caller, 0)) sim_world =
      (Ret false, w') /\
    1024 = 1300 - 1300 mod 512 /\
    trace w' = trace w2 ++ [EvCopy (Some (Caller, 0 + 1024)) (Some (Scratch, 0)) (1300 mod 512)] /\
    forall i, 0 <= i < 1300 mod 512 -> io w' Caller (0 + 1024 + i) = io w2 Scratch i.
Proof.
  intros port w1 w2.
  apply (disk_do_size_failed_tail port sim_world 1%N sim_disk DISK_OP_READ 10 1300
           Caller 0 1024 w1 w2).
  - reflexivity.
  - simpl. lia.
  - lia.
  - vm_compute. discriminate.
  - vm_compute. reflexivity.
  - vm_compute. reflexivity.
Defined.

Lemma disk_part_add_flag_witness :
  exists w',
    disk_part_add sim_vmm_alloc (Some 1%N) 2048 4096 sim_world = (Ret (Some 1%N), w') /\
    parts w' !! 1%N = Some (mk_part 2048 4096 false (Some 1%N) None).
Proof.
  apply (disk_part_add_flag sim_vmm_alloc sim_world 1%N sim_disk [] 2048 4096).
  - reflexivity.
  - reflexivity.
  - intros n Hn. vm_compute in Hn. injection Hn as <-. reflexivity.
Defined.

(** C2 as stated fails in both halves: neither a new entry nor a matched
    one comes back from [disk_part_add] with its flag set. *)
Lemma disk_part_add_flag_counterexample :
  ~ (forall vmm_alloc w a start size x w',
       disk_part_add vmm_alloc (Some a) start size w = (Ret (Some x), w') ->
       parts w !! x = None ->
       part_available <$> parts w' !! x = Some true) /\
  ~ (forall vmm_alloc w a start size x w',
       disk_part_add vmm_alloc (Some a) start size w = (Ret (Some x), w') ->
       is_Some (parts w !! x) ->
       part_available <$> parts w' !! x = Some true).
Proof.
  split; intros H.
  - specialize (H sim_vmm_alloc sim_world 1%N 2048 4096 1%N
                  (snd (disk_part_add sim_vmm_alloc (Some 1%N) 2048 4096 sim_world))
                  eq_refl eq_refl).
    vm_compute in H. discriminate.
  - specialize (H sim_vmm_alloc
                  (snd (disk_part_add sim_vmm_alloc (Some 1%N) 2048 4096 sim_world))
                  1%N 2048 4096 1%N
                  (snd (disk_part_add sim_vmm_alloc (Some 1%N) 2048 4096 sim_world))
                  eq_refl (mk_is_Some _ _ eq_refl)).
    vm_compute in H. discriminate.
Qed.

Lemma disk_part_add_idempotent_witness :
  let w1 := snd (disk_part_add sim_vmm_alloc (Some 1%N) 2048 4096 sim_world) in
  disk_part_add sim_vmm_alloc (Some 1%N) 2048 4096 w1 = (Ret (Some 1%N), w1) /\
  count_of (snd (disk_part_add sim_vmm_alloc (Some 1%N) 2048 4096 w1)) 1%N = count_of w1 1%N /\
  exists l1,
    disk_list w1 1%N l1 /\
    select (parts w1) (disk_part_match 2048 4096) l1 = [1%N].
Proof.
  intros w1.
  apply (disk_part_add_idempotent sim_vmm_alloc sim_world 1%N [] 2048 4096 1%N w1).
  - vm_compute. reflexivity.
  - simpl. lia.
  - intros n Hn. vm_compute in Hn. injection Hn as <-. reflexivity.
  - vm_compute. reflexivity.
Defined.

Lemma part_count_preserved_witness :
  ((exists r w' l',
      disk_part_add sim_vmm_alloc (Some 1%N) 1 1 sim_world_half = (Ret r, w') /\
      part_count_is w' 1%N l' /\
      ((l' = [10%N; 20%N] /\ count_of w' 1%N = count_of sim_world_half 1%N) \/
       (exists n, r = Some n /\ parts sim_world_half !! n = None /\ l' = [10%N; 20%N] ++ [n] /\
                  count_of w' 1%N = Z.succ <$> count_of sim_world_half 1%N)) /\
      others_kept sim_world_half w' 1%N [10%N; 20%N]) /\
   (exists w',
      disk_part_clear (Some 1%N) sim_world_half = (Ret tt, w') /\
      part_count_is w' 1%N (select (parts sim_world_half) part_available [10%N; 20%N]) /\
      (forall x, x ∈ [10%N; 20%N] ->
                 x ∉ select (parts sim_world_half) part_available [10%N; 20%N] ->
                 parts w' !! x = None) /\
      count_of w' 1%N =
        Some (Z.of_nat (length [10%N; 20%N]) -
              Z.of_nat (length [10%N; 20%N] -
                        length (select (parts sim_world_half) part_available [10%N; 20%N]))) /\
      others_kept sim_world_half w' 1%N [10%N; 20%N])) /\
  count_of sim_world_half 1%N = Some 2 /\
  (let w' := snd (disk_part_add sim_vmm_alloc (Some 1%N) 1 1 sim_world_half) in
   exists n,
     fst (disk_part_add sim_vmm_alloc (Some 1%N) 1 1 sim_world_half) = Ret (Some n) /\
     parts sim_world_half !! n = None /\
     parts w' !! n = Some (mk_part 1 1 false (Some 1%N) None) /\
     is_list (parts w') (Some 10%N) [10%N; 20%N; n] /\
     count_of w' 1%N = Some 3) /\
  (let w' := snd (disk_part_clear (Some 1%N) sim_world_half) in
   select (parts sim_world_half) part_available [10%N; 20%N] = [10%N] /\
   is_list (parts w') (Some 10%N) [10%N] /\
   parts w' !! 20%N = None /\
   count_of w' 1%N = Some 1).
Proof.
  split.
  - apply (part_count_preserved sim_vmm_alloc sim_world_half 1%N [10%N; 20%N] 1 1).
    + eexists. split; [reflexivity|]. split; [vm_compute; auto | reflexivity].
    + intros n Hn. vm_compute in Hn. injection Hn as <-. reflexivity.
  - split; [reflexivity|]. split.
    + eexists. vm_compute. repeat split; reflexivity.
    + vm_compute. repeat split; reflexivity.
Defined.

Lemma disk_scan_info_failure_witness :
  let d := mk_disk DISK_CONTROLLER_AHCI (Some 7%N) 512 true (Some 10%N) 2 in
  let l := [10%N; 20%N] in
  let w2 := snd (disk_do broken_port_do (Some 1%N) DISK_OP_INFO 0 0 None
                   (scan_marked 1%N d l sim_world2)) in
  (disk_scan broken_port_do false sim_no_table (sim_table_load [(2048, 4096)]) (Some 1%N)
     sim_world2 = (Ret false, w2) /\
   (exists d2,
      disks w2 !! 1%N = Some d2 /\
      disk_available d2 = false /\
      disk_part_count d2 = disk_part_count d /\
      disk_parts d2 = disk_parts d /\
      disk_controller d2 = disk_controller d /\
      disk_data d2 = disk_data d /\
      disk_sector_size d2 = disk_sector_size d) /\
   is_list (parts w2) (disk_parts d) l /\
   (forall x, x ∈ l ->
      exists p p',
        parts sim_world2 !! x = Some p /\
        parts w2 !! x = Some p' /\
        part_available p' = false /\
        part_start p' = part_start p /\
        part_size p' = part_size p /\
        part_disk p' = part_disk p /\
        part_next p' = part_next p) /\
   (forall x, x ∉ l -> parts w2 !! x = parts sim_world2 !! x) /\
   vfs_list w2 = vfs_list sim_world2) /\
  disk_available <$> disks sim_world2 !! 1%N = Some true /\
  disk_available <$> disks w2 !! 1%N = Some false /\
  disks w2 !! 1%N = Some (mk_disk DISK_CONTROLLER_AHCI (Some 7%N) 512 false (Some 10%N) 2) /\
  parts w2 !! 10%N = Some (mk_part 2048 4096 false (Some 1%N) (Some 20%N)) /\
  parts w2 !! 20%N = Some (mk_part 8192 1000 false (Some 1%N) None).
Proof.
  intros d l w2. split.
  - apply (disk_scan_info_failure broken_port_do false sim_no_table
             (sim_table_load [(2048, 4096)]) sim_world2 1%N d l w2).
    + reflexivity.
    + vm_compute. auto.
    + vm_compute. reflexivity.
  - vm_compute. repeat split; reflexivity.
Defined.



(** ** More on the transfer functions *)

Section TransferShape.

Variable ahci_port_do :
  option ptr -> disk_op_t -> Z -> Z -> bufptr -> iomem -> bool * iomem.



(** When the first raw call of the loop fails, the transfer stops there:
    it returns false after that one raw call, with no call on the local
    array and no copy. *)
Theorem disk_do_size_first_failure w a d op lba size r o :
  disks w !! a = Some d ->
  disk_controller d = DISK_CONTROLLER_AHCI ->
  0 < disk_sector_size d <= size ->
  size mod disk_sector_size d <> 0 ->
  fst (ahci_port_do (disk_data d) op lba 1 (Some (r, o + 0)) (io w)) = false ->
  __disk_do_size ahci_port_do (Some a) op lba size (Some (r, o)) w =
  (Ret false,
   set_io (snd (ahci_port_do (disk_data d) op lba 1 (Some (r, o + 0)) (io w)))
          (logged (EvRaw op lba 1 (Some (r, o + 0))) w)).
Proof.
  intros Hd Hc Hss Hrem Hfail. set (ss := disk_sector_size d) in *.
  pose proof (Z.mod_pos_bound size ss ltac:(lia)) as Hbound.
  unfold __disk_do_size.
  rewrite (bind_ret_l _ _ _ _ _ (load_disk_some _ _ _ Hd)).
  unfold div_floor, umod. fold ss.
  replace (ss =? 0) with false by (symmetry; apply Z.eqb_neq; lia).
  unfold bind at 1, ret at 1. unfold bind at 1, ret at 1.
  replace (size mod ss =? 0) with false by (symmetry; now apply Z.eqb_neq).
  unfold disk_do_size_whole. unfold bind at 1.
  rewrite (bind_ret_l _ _ _ _ _ (load_disk_some _ _ _ Hd)). fold ss.
  replace (size <? ss) with false by (symmetry; apply Z.ltb_ge; lia).
  cbn [disk_do_size_loop].
  replace (size =? size mod ss) with false by (symmetry; apply Z.eqb_neq; lia).
  unfold bind at 1. cbn [buf_add].
  rewrite (disk_do_raw_ahci _ _ _ _ _ _ _ _ Hd Hc), Hfail.
  reflexivity.
Qed.

End TransferShape.

(** ** More on the partition list *)

Section PartitionsMore.

Variable vmm_alloc : world -> option ptr.

Implicit Types (h : gmap N disk_part_t) (l : list N) (w : world).

Lemma same_partition_next p p' :
  set_part_next None p' = set_part_next None p -> same_partition p p'.
Proof.
  intros H. unfold same_partition.
  apply (f_equal part_start) in H as H1. apply (f_equal part_size) in H as H2.
  apply (f_equal part_available) in H as H3. apply (f_equal part_disk) in H as H4.
  auto.
Qed.

Lemma walk_from l :
  forall fuel w a cur p,
    disk_part_next (Some a) cur w = (Ret p, w) ->
    is_list (parts w) p l ->
    (length l < fuel)%nat ->
    disk_part_walk fuel (Some a) cur w = (Ret l, w).
Proof.
  induction l as [|x l IH]; intros fuel w a cur p Hnext Hl Hfuel;
    (destruct fuel as [|fuel]; [simpl in Hfuel; lia|]);
    cbn [disk_part_walk]; rewrite (bind_ret_l _ _ _ _ _ Hnext);
    cbn [is_list] in Hl.
  - now subst p.
  - destruct Hl as [-> Hl]. destruct (parts w !! x) as [px|] eqn:Hpx; [|contradiction].
    rewrite (bind_ret_l _ _ _ _ _ (IH fuel w a (Some x) (part_next px)
               ltac:(cbn [disk_part_next];
                     now rewrite (bind_ret_l _ _ _ _ _ (load_part_some _ _ _ Hpx)))
               Hl ltac:(simpl in Hfuel; lia))).
    reflexivity.
Qed.

(** Starting from [NULL] and calling [disk_part_next] until it returns
    [NULL] visits the partitions of the disk, each once, in list order,
    and changes nothing. *)
Theorem disk_part_next_walk w a d l :
  disks w !! a = Some d ->
  is_list (parts w) (disk_parts d) l ->
  disk_part_walk (heap_bound w) (Some a) None w = (Ret l, w).
Proof.
  intros Hd Hl. apply (walk_from l _ w a None (disk_parts d)).
  - cbn [disk_part_next]. now rewrite (bind_ret_l _ _ _ _ _ (load_disk_some _ _ _ Hd)).
  - exact Hl.
  - eapply heap_bound_enough, Hl.
Qed.

(** [disk_part_add] returns [NULL] and changes nothing when the disk is
    [NULL], and when no partition has the identity and the allocator has
    no memory: nothing is linked and the counter is not touched. *)
Theorem disk_part_add_no_memory w a d l start size :
  disks w !! a = Some d ->
  is_list (parts w) (disk_parts d) l ->
  first_match (parts w) (disk_part_match start size) l = None ->
  vmm_alloc w = None ->
  disk_part_add vmm_alloc None start size w = (Ret None, w) /\
  disk_part_add vmm_alloc (Some a) start size w = (Ret None, w).
Proof.
  intros Hd Hl Hx Hm. split; [reflexivity|].
  now apply (disk_part_add_nomem vmm_alloc w a d l).
Qed.

(** [disk_part_add] keeps invariant I2.  On a disk whose partition list
    is [l], with no identity occurring twice in [l], the call returns and
    the disk has a partition list afterwards: [l] itself, or [l] with the
    returned node behind it; and no identity occurs twice in that list,
    the identity just added included. *)
Theorem disk_part_add_unique_identities w a l start size :
  disk_list w a l ->
  (forall s z, (length (select (parts w) (disk_part_match s z) l) <= 1)%nat) ->
  (forall n, vmm_alloc w = Some n -> parts w !! n = None) ->
  exists r w' l',
    disk_part_add vmm_alloc (Some a) start size w = (Ret r, w') /\
    disk_list w' a l' /\
    (l' = l \/ exists n, r = Some n /\ l' = l ++ [n]) /\
    (forall s z, (length (select (parts w') (disk_part_match s z) l') <= 1)%nat).
Proof.
  intros Hl Hu Hfresh.
  assert (Huniq : identities_unique w a).
  { intros l0 s z Hl0. unfold disk_list in Hl, Hl0.
    destruct (disks w !! a); [|contradiction].
    rewrite (is_list_inj _ _ _ _ Hl0 Hl). apply Hu. }
  assert (Hrun : exists r w' l',
            disk_part_add vmm_alloc (Some a) start size w = (Ret r, w') /\
            disk_list w' a l' /\
            (l' = l \/ exists n, r = Some n /\ l' = l ++ [n])).
  { pose proof Hl as Hl0. unfold disk_list in Hl0.
    destruct (disks w !! a) as [d|] eqn:Hd; [|contradiction].
    destruct (first_match (parts w) (disk_part_match start size) l) as [y|] eqn:Hy.
    - exists (Some y), w, l. split_and!; [|exact Hl|now left].
      now apply (disk_part_add_found vmm_alloc w a d l).
    - destruct (vmm_alloc w) as [n|] eqn:Hm.
      + destruct (disk_part_add_new vmm_alloc w a d l start size n Hd Hl0 Hy Hm
                    (Hfresh n eq_refl))
          as (w1 & d1 & Hrun1 & _ & _ & _ & Hds & _ & Hl1 & _).
        exists (Some n), w1, (l ++ [n]). split_and!; [exact Hrun1| |right; eauto].
        unfold disk_list. now rewrite Hds, lookup_insert_eq.
      + exists None, w, l. split_and!; [|exact Hl|now left].
        now apply (disk_part_add_nomem vmm_alloc w a d l). }
  destruct Hrun as (r & w' & l' & Hrun & Hl' & Hshape).
  exists r, w', l'. split_and!; [exact Hrun | exact Hl' | exact Hshape |].
  intros s z.
  apply (disk_part_add_keeps_identities vmm_alloc w a l start size (Ret r) w' Hl Huniq Hfresh Hrun).
  exact Hl'.
Qed.

(** [disk_part_add] never removes or rewrites a partition: every node on
    the heap before the call is there after it with the same start, size,
    flag and disk; mounts, byte memory and every other disk are untouched. *)
Theorem disk_part_add_keeps_existing w a d l start size :
  disks w !! a = Some d ->
  is_list (parts w) (disk_parts d) l ->
  (forall n, vmm_alloc w = Some n -> parts w !! n = None) ->
  exists r w',
    disk_part_add vmm_alloc (Some a) start size w = (Ret r, w') /\
    (forall x p, parts w !! x = Some p ->
       exists p', parts w' !! x = Some p' /\ same_partition p p') /\
    (forall b, b <> a -> disks w' !! b = disks w !! b) /\
    vfs_list w' = vfs_list w /\ io w' = io w /\ trace w' = trace w.
Proof.
  intros Hd Hl Hfresh.
  assert (Hid : forall x p, parts w !! x = Some p ->
            exists p', parts w !! x = Some p' /\ same_partition p p').
  { intros x p Hp. exists p. split; [exact Hp | repeat split]. }
  destruct (first_match (parts w) (disk_part_match start size) l) as [y|] eqn:Hy.
  - exists (Some y), w. split; [eapply disk_part_add_found; eauto|]. split_and!; auto.
  - destruct (vmm_alloc w) as [n|] eqn:Hm.
    + destruct (disk_part_add_new vmm_alloc w a d l start size n Hd Hl Hy Hm (Hfresh n eq_refl))
        as (w' & d' & Hrun & Hv & Hio & Htr & Hds & _ & _ & _ & Hpay & _).
      exists (Some n), w'. split; [exact Hrun|]. split_and!; auto.
      * intros x p Hp.
        assert (Hxn : x <> n).
        { intros ->. rewrite (Hfresh n eq_refl) in Hp. discriminate. }
        pose proof (Hpay x Hxn) as Hx. rewrite Hp in Hx.
        destruct (parts w' !! x) as [p'|]; [|discriminate].
        exists p'. split; [reflexivity|]. apply same_partition_next.
        simpl in Hx. congruence.
      * intros b Hb. rewrite Hds. now rewrite lookup_insert_ne by congruence.
    + exists None, w. split; [eapply disk_part_add_nomem; eauto|]. split_and!; auto.
Qed.

End PartitionsMore.

(** ** More on the mark and sweep phases *)

Section SweepMore.

Variable vmm_alloc : world -> option ptr.

Implicit Types (h : gmap N disk_part_t) (l : list N) (w : world).

(** [__disk_part_block] clears the flag of every partition of the disk
    and changes nothing else: list, counter, start and size of every
    partition, and every node that is not in the list stay as they were.
    On [NULL] it does nothing. *)
Theorem disk_part_block_clears w a d l :
  disks w !! a = Some d ->
  is_list (parts w) (disk_parts d) l ->
  __disk_part_block None w = (Ret tt, w) /\
  exists w',
    __disk_part_block (Some a) w = (Ret tt, w') /\
    disks w' = disks w /\ vfs_list w' = vfs_list w /\ io w' = io w /\ trace w' = trace w /\
    is_list (parts w') (disk_parts d) l /\
    (forall x, x ∈ l ->
       parts w' !! x = set_part_available false <$> parts w !! x /\
       flag_of (parts w') x = false) /\
    (forall x, x ∉ l -> parts w' !! x = parts w !! x).
Proof.
  intros Hd Hl. split; [reflexivity|].
  exists (set_parts (blocked l (parts w)) w).
  split; [now apply disk_part_block_run with (d := d)|].
  split_and!; try reflexivity.
  - cbn. eapply is_list_same_next; [|exact Hl]. intros x _. apply blocked_next.
  - intros x Hx. cbn. unfold flag_of.
    rewrite blocked_lookup, decide_True by exact Hx.
    split; [reflexivity|]. now destruct (parts w !! x).
  - intros x Hx. cbn. now rewrite blocked_lookup, decide_False by exact Hx.
Qed.

Lemma disk_part_clear_loop_steady l :
  forall fuel w a trav pre,
    is_list (parts w) trav l ->
    (forall x, x ∈ l -> flag_of (parts w) x = true /\ is_Some (find_vfs x (vfs_list w))) ->
    (length l < fuel)%nat ->
    disk_part_clear_loop fuel (Some a) trav pre w = (Ret tt, w).
Proof.
  induction l as [|t l IH]; intros fuel w a trav pre Hl Hall Hfuel;
    (destruct fuel as [|fuel]; [simpl in Hfuel; lia|]);
    cbn [is_list] in Hl.
  - now subst trav.
  - destruct Hl as [-> Hl]. destruct (parts w !! t) as [pt|] eqn:Hpt; [|contradiction].
    destruct (Hall t ltac:(left)) as [Hflag [c Hc]].
    unfold flag_of in Hflag. rewrite Hpt in Hflag.
    cbn [disk_part_clear_loop].
    unfold bind at 1, __disk_part_find_vfs at 1.
    rewrite (bind_ret_l _ _ _ _ _ (load_part_some _ _ _ Hpt)), Hflag, Hc.
    unfold bind at 1, ret at 1.
    rewrite (bind_ret_l _ _ _ _ _ (load_part_some _ _ _ Hpt)).
    apply IH; [exact Hl | | simpl in Hfuel; lia].
    intros x Hx. apply Hall. now right.
Qed.

(** A sweep over a disk whose partitions are all flagged and all mounted
    changes nothing: no partition is freed or relinked, the counter stays,
    and no registry call is made. *)
Theorem disk_part_clear_steady w a d l :
  disks w !! a = Some d ->
  is_list (parts w) (disk_parts d) l ->
  Forall (fun x => flag_of (parts w) x = true /\ is_Some (find_vfs x (vfs_list w))) l ->
  disk_part_clear (Some a) w = (Ret tt, w).
Proof.
  intros Hd Hl Hall. rewrite Forall_forall in Hall. unfold disk_part_clear.
  rewrite (bind_ret_l _ _ _ _ _ (load_disk_some _ _ _ Hd)), bind_get.
  apply (disk_part_clear_loop_steady l); auto.
  eapply heap_bound_enough, Hl.
Qed.

Lemma select_none_flagged h l :
  (forall x, x ∈ l -> flag_of h x = false) -> select h part_available l = [].
Proof.
  induction l as [|t l IH]; intros Hall; [reflexivity|]. cbn [select].
  pose proof (Hall t ltac:(left)) as Ht. unfold flag_of in Ht.
  destruct (h !! t) as [pt|]; [rewrite Ht|]; apply IH; intros x Hx; apply Hall; now right.
Qed.

(** A sweep over a disk none of whose partitions is flagged empties the
    disk: the list head becomes [NULL], the counter goes down by the
    length of the list, every node of the list is freed, and no other node
    changes. *)
Theorem disk_part_clear_none_flagged w a d l :
  disks w !! a = Some d ->
  is_list (parts w) (disk_parts d) l ->
  Forall (fun x => flag_of (parts w) x = false) l ->
  exists w' d',
    disk_part_clear (Some a) w = (Ret tt, w') /\
    disks w' !! a = Some d' /\
    disk_parts d' = None /\
    disk_part_count d' = disk_part_count d - Z.of_nat (length l) /\
    (forall x, x ∈ l -> parts w' !! x = None) /\
    (forall x, x ∉ l -> parts w' !! x = parts w !! x).
Proof.
  intros Hd Hl Hall. rewrite Forall_forall in Hall.
  destruct (disk_part_clear_run w a d l Hd Hl) as (w' & Hrun & Hpost).
  destruct Hpost as (_ & _ & _ & (d' & Hds & Hd' & Hl') & Hrem & _ & Hframe).
  rewrite (select_none_flagged _ _ Hall) in Hd', Hl', Hrem.
  exists w', d'. split; [exact Hrun|]. split_and!.
  - rewrite Hds. apply lookup_insert_eq.
  - exact Hl'.
  - rewrite Hd'. cbn. now rewrite Nat.sub_0_r.
  - intros x Hx. apply Hrem; [exact Hx | apply not_elem_of_nil].
  - intros x Hx. apply Hframe; [exact Hx | discriminate].
Qed.

Lemma part_available_blind : next_blind part_available.
Proof. intros n p. reflexivity. Qed.

(** [disk_part_add] alone does not make a partition survive a sweep: a
    partition it has just created, whose flag the caller has not set, is
    freed by the next [disk_part_clear], which leaves the disk with the
    flagged ones of its old partitions. *)
Theorem disk_part_add_then_clear w a d l start size n :
  disks w !! a = Some d ->
  is_list (parts w) (disk_parts d) l ->
  first_match (parts w) (disk_part_match start size) l = None ->
  vmm_alloc w = Some n ->
  parts w !! n = None ->
  exists w1 w2,
    disk_part_add vmm_alloc (Some a) start size w = (Ret (Some n), w1) /\
    disk_part_clear (Some a) w1 = (Ret tt, w2) /\
    parts w2 !! n = None /\
    disk_list w2 a (select (parts w) part_available l) /\
    count_of w2 a =
      Some (disk_part_count d -
            Z.of_nat (length l - length (select (parts w) part_available l))).
Proof.
  intros Hd Hl Hx Hm Hn.
  destruct (disk_part_add_new vmm_alloc w a d l start size n Hd Hl Hx Hm Hn)
    as (w1 & d1 & Hrun & _ & _ & _ & Hds & Hd1 & Hl1 & Hn1 & Hpay & _).
  assert (Hda1 : disks w1 !! a = Some d1) by (rewrite Hds; apply lookup_insert_eq).
  destruct (disk_part_clear_run w1 a d1 (l ++ [n]) Hda1 Hl1) as (w2 & Hclear & Hpost).
  destruct Hpost as (_ & _ & _ & (d2 & Hds2 & Hd2 & Hl2) & Hrem & _ & _).
  assert (Hnl : n ∉ l).
  { intros Hin. destruct (is_list_dom _ _ _ _ Hl Hin) as [? Hp]. congruence. }
  assert (Hsel : select (parts w1) part_available (l ++ [n]) =
                 select (parts w) part_available l).
  { rewrite select_app. cbn [select]. rewrite Hn1. cbn. rewrite app_nil_r.
    apply select_blind; [apply part_available_blind|].
    intros x Hxl. apply Hpay. intros ->. contradiction. }
  rewrite Hsel in Hd2, Hl2, Hrem.
  pose proof (select_length part_available (parts w) l) as Hlen.
  exists w1, w2. split_and!; [exact Hrun | exact Hclear | | |].
  - apply Hrem; [apply elem_of_app; right; left|].
    intros Hin. apply Hnl. eapply select_in, Hin.
  - unfold disk_list. rewrite Hds2, lookup_insert_eq. exact Hl2.
  - unfold count_of. rewrite Hds2, lookup_insert_eq. cbn. f_equal.
    rewrite Hd2. cbn. rewrite Hd1. cbn. rewrite length_app. cbn. lia.
Qed.

End SweepMore.

(** ** More on [disk_scan] *)

Section ScanMore.

Variable ahci_port_do :
  option ptr -> disk_op_t -> Z -> Z -> bufptr -> iomem -> bool * iomem.
Variable CONFIG_CORE_GPT : bool.
Variable gpt_load : option ptr -> M bool.
Variable mbr_load : option ptr -> M bool.

Implicit Types (h : gmap N disk_part_t) (l : list N) (w : world).

Lemma select_flagged h l x : x ∈ select h part_available l -> flag_of h x = true.
Proof.
  induction l as [|t l IH]; cbn [select]; [intros H; inversion H|].
  unfold flag_of in *. destruct (h !! t) as [pt|] eqn:Hpt; [|exact IH].
  destruct (part_available pt) eqn:Hav; [|exact IH].
  intros [->|Hx]%elem_of_cons; [now rewrite Hpt | now apply IH].
Qed.

(** When the info query succeeds and no parser recognizes a table,
    [disk_scan] returns false straight from the parsers: the sweep does
    not run and [available] is not set again, so the disk stays
    unavailable unless a parser wrote to it, and partitions and mounts are
    what the parsers left. *)
Theorem disk_scan_parse_failure w a d l w2 w3 :
  disks w !! a = Some d ->
  is_list (parts w) (disk_parts d) l ->
  disk_do ahci_port_do (Some a) DISK_OP_INFO 0 0 None (scan_marked a d l w) = (Ret true, w2) ->
  disk_scan_parse CONFIG_CORE_GPT gpt_load mbr_load (Some a) w2 = (Ret false, w3) ->
  disk_scan ahci_port_do CONFIG_CORE_GPT gpt_load mbr_load (Some a) w = (Ret false, w3) /\
  (disks w3 = disks w2 -> disks w3 !! a = Some (set_disk_available false d)).
Proof.
  intros Hd Hl Hinfo Hparse. split.
  - rewrite (disk_scan_mark_run _ _ _ _ w a d l Hd Hl).
    rewrite (bind_ret_l _ _ _ _ _ Hinfo). cbn [negb].
    now rewrite (bind_ret_l _ _ _ _ _ Hparse).
  - intros ->.
    assert (Hdm : disks (scan_marked a d l w) !! a = Some (set_disk_available false d))
      by (cbn; apply lookup_insert_eq).
    destruct (disk_do_info_frame _ _ _ _ _ _ Hdm Hinfo) as (-> & _). exact Hdm.
Qed.

(** A scan that gets past the info query and the parsers, for any
    partition list [l3] the parsers leave: [disk_scan] returns true with
    the disk available; the disk keeps exactly the flagged partitions of
    [l3], in their order, every unflagged one is freed, and the counter
    goes down by the number freed. *)
Theorem disk_scan_success w a d l w2 w3 d3 l3 :
  disks w !! a = Some d ->
  is_list (parts w) (disk_parts d) l ->
  disk_do ahci_port_do (Some a) DISK_OP_INFO 0 0 None (scan_marked a d l w) = (Ret true, w2) ->
  disk_scan_parse CONFIG_CORE_GPT gpt_load mbr_load (Some a) w2 = (Ret true, w3) ->
  disks w3 !! a = Some d3 ->
  is_list (parts w3) (disk_parts d3) l3 ->
  exists w4 d4,
    disk_scan ahci_port_do CONFIG_CORE_GPT gpt_load mbr_load (Some a) w = (Ret true, w4) /\
    disks w4 !! a = Some d4 /\
    disk_available d4 = true /\
    is_list (parts w4) (disk_parts d4) (select (parts w3) part_available l3) /\
    disk_part_count d4 =
      disk_part_count d3 -
      Z.of_nat (length l3 - length (select (parts w3) part_available l3)) /\
    (forall x, x ∈ l3 -> flag_of (parts w3) x = false -> parts w4 !! x = None) /\
    (forall x, x ∉ l3 -> parts w4 !! x = parts w3 !! x) /\
    vfs_list w4 = clear_vfs (parts w3) l3 (vfs_list w3) /\
    trace w4 = trace w3 ++ clear_events (parts w3) l3 (vfs_list w3).
Proof.
  intros Hd Hl Hinfo Hparse Hd3 Hl3.
  destruct (disk_part_clear_run w3 a d3 l3 Hd3 Hl3) as (w' & Hclear & Hpost).
  destruct Hpost as (_ & Hvfs & Htr & (d' & Hds' & Hd' & Hl') & Hrem & _ & Hframe).
  assert (Hda' : disks w' !! a = Some d') by (rewrite Hds'; apply lookup_insert_eq).
  exists (set_disks (<[a := set_disk_available true d']> (disks w')) w'),
         (set_disk_available true d').
  split_and!.
  - rewrite (disk_scan_mark_run _ _ _ _ w a d l Hd Hl).
    rewrite (bind_ret_l _ _ _ _ _ Hinfo). cbn [negb].
    rewrite (bind_ret_l _ _ _ _ _ Hparse). cbn [negb].
    rewrite (bind_ret_l _ _ _ _ _ Hclear).
    now rewrite (bind_ret_l _ _ _ _ _ (modify_disk_some _ _ _ _ Hda')).
  - cbn. apply lookup_insert_eq.
  - reflexivity.
  - exact Hl'.
  - cbn. now rewrite Hd'.
  - intros x Hx Hflag. cbn. apply Hrem; [exact Hx|].
    intros Hin. apply select_flagged in Hin. congruence.
  - intros x Hx. cbn. apply Hframe; [exact Hx | discriminate].
  - exact Hvfs.
  - exact Htr.
Qed.


End ScanMore.

(** ** Properties of the disk registry *)

Section RegistryProps.

Variable vmm_alloc_disk : kernel -> option ptr.
Variable slist_del : registry -> ptr -> registry.

Implicit Types (lk : gmap N (option ptr)) (l : list N) (st : kernel).

Lemma is_chain_is_list lk p l : is_chain lk p l <-> is_list (bare_nodes lk) p l.
Proof.
  revert p. induction l as [|a l IH]; intros p; cbn [is_chain is_list]; [tauto|].
  unfold bare_nodes at 1. rewrite lookup_fmap.
  destruct (lk !! a) as [n|]; cbn; [|tauto].
  now rewrite IH.
Qed.

Lemma is_chain_frame lk lk' p l :
  (forall x, x ∈ l -> lk' !! x = lk !! x) ->
  is_chain lk p l -> is_chain lk' p l.
Proof.
  intros Hsame. rewrite !is_chain_is_list. apply is_list_frame.
  intros x Hx. unfold bare_nodes. now rewrite !lookup_fmap, Hsame.
Qed.

Lemma is_chain_dom lk p l x : is_chain lk p l -> x ∈ l -> is_Some (lk !! x).
Proof.
  rewrite is_chain_is_list. intros Hl Hx.
  destruct (is_list_dom _ _ _ _ Hl Hx) as [n Hn].
  unfold bare_nodes in Hn. rewrite lookup_fmap in Hn.
  destruct (lk !! x); [eauto | discriminate].
Qed.

Lemma is_chain_bound lk p l : is_chain lk p l -> (length l <= size lk)%nat.
Proof.
  rewrite is_chain_is_list. intros Hl. apply is_list_bound in Hl.
  unfold bare_nodes in Hl. now rewrite map_size_fmap in Hl.
Qed.

Lemma registry_last_run l :
  forall fuel lk a,
    is_chain lk (Some a) (a :: l) ->
    (length l < fuel)%nat ->
    registry_last fuel lk a = Ret (List.last l a).
Proof.
  induction l as [|b l IH]; intros fuel lk a Hl Hfuel;
    (destruct fuel as [|fuel]; [simpl in Hfuel; lia|]);
    cbn [registry_last]; cbn [is_chain] in Hl; destruct Hl as [_ Hl];
    destruct (lk !! a) as [n|] eqn:Ha; try contradiction.
  - cbn [is_chain] in Hl. now rewrite Hl.
  - assert (Hn : n = Some b) by (cbn [is_chain] in Hl; tauto).
    rewrite Hn. rewrite Hn in Hl.
    rewrite (IH fuel lk b Hl) by (simpl in Hfuel; lia).
    now rewrite last_cons_default.
Qed.

(** Linking a detached disk behind the registry list. *)
Lemma registry_add_run rg l n :
  is_chain (disk_link rg) (disk_first rg) l ->
  n ∉ l ->
  disk_link rg !! n = Some None ->
  exists rg',
    registry_add rg n = Ret rg' /\
    is_chain (disk_link rg') (disk_first rg') (l ++ [n]) /\
    (forall x, is_Some (disk_link rg' !! x) <-> is_Some (disk_link rg !! x)).
Proof.
  clear vmm_alloc_disk slist_del.
  intros Hl Hn Hlink. unfold registry_add. destruct l as [|b l].
  - cbn [is_chain] in Hl. rewrite Hl.
    eexists. split; [reflexivity|]. cbn. rewrite Hlink. tauto.
  - assert (Hb : disk_first rg = Some b) by (cbn [is_chain] in Hl; tauto).
    rewrite Hb in Hl |- *.
    rewrite (registry_last_run l _ _ b Hl)
      by (pose proof (is_chain_bound _ _ _ Hl) as Hle; simpl in Hle; lia).
    eexists. split; [reflexivity|]. cbn [disk_link disk_first].
    assert (Hnode : bare_nodes (disk_link rg) !! n = Some (mk_part 0 0 false None None)).
    { unfold bare_nodes. now rewrite lookup_fmap, Hlink. }
    destruct (is_list_append _ _ _ _ _ (proj1 (is_chain_is_list _ _ _) Hl)
                ltac:(discriminate) Hn Hnode eq_refl) as (plst & Hlst & Hin & Happ).
    rewrite (last_cons_default l n b) in Hlst, Hin, Happ.
    split.
    + apply is_chain_is_list.
      unfold bare_nodes in Hlst. rewrite lookup_fmap in Hlst.
      destruct (disk_link rg !! List.last l b) as [nl|] eqn:Hnl; [|discriminate].
      injection Hlst as <-.
      unfold bare_nodes at 1. rewrite fmap_insert. exact Happ.
    + intros x. destruct (decide (List.last l b = x)) as [<-|Hx].
      * rewrite lookup_insert_eq.
        destruct (is_chain_dom _ _ _ _ Hl Hin) as [v Hv]. rewrite Hv. split; eauto.
      * now rewrite lookup_insert_ne.
Qed.

(** [disk_add] with a non-[NULL] [data] and a fresh block from the
    allocator: the new disk has the given controller and data, the default
    sector size 512, is not available and has no partitions and a counter
    of 0; it is linked behind the disks already registered; no other disk,
    no partition and no mount changes. *)
Theorem disk_add_registers st controller data a l :
  is_Some data ->
  vmm_alloc_disk st = Some a ->
  disks (snd st) !! a = None ->
  disk_link (fst st) !! a = None ->
  is_chain (disk_link (fst st)) (disk_first (fst st)) l ->
  exists st',
    disk_add vmm_alloc_disk controller data st = (Ret (Some a), st') /\
    disks (snd st') !! a = Some (mk_disk controller data 512 false None 0) /\
    part_count_is (snd st') a [] /\
    is_chain (disk_link (fst st')) (disk_first (fst st')) (l ++ [a]) /\
    (forall b, b <> a -> disks (snd st') !! b = disks (snd st) !! b) /\
    parts (snd st') = parts (snd st) /\
    vfs_list (snd st') = vfs_list (snd st).
Proof.
  clear slist_del.
  intros [p ->] Hm Hfree Hlk Hl. destruct st as [rg w]. cbn [fst snd] in *.
  unfold disk_add. cbn [fst snd]. rewrite Hm.
  set (rg1 := mk_registry (disk_first rg) (<[a := None]> (disk_link rg))).
  assert (Hal : a ∉ l).
  { intros Hin. destruct (is_chain_dom _ _ _ _ Hl Hin) as [? ?]. congruence. }
  destruct (registry_add_run rg1 l a) as (rg2 & Hadd & Hl2 & _).
  - eapply is_chain_frame; [|exact Hl]. intros x Hx. cbn.
    rewrite lookup_insert_ne; [reflexivity|]. intros ->. contradiction.
  - exact Hal.
  - cbn. apply lookup_insert_eq.
  - rewrite Hadd. eexists. split; [reflexivity|]. cbn [fst snd].
    split_and!; try reflexivity.
    + cbn. apply lookup_insert_eq.
    + eexists. split; [cbn; apply lookup_insert_eq|]. split; reflexivity.
    + exact Hl2.
    + intros b Hb. cbn. now rewrite lookup_insert_ne by congruence.
Qed.

Lemma disk_walk_from l :
  forall fuel st cur p,
    disk_next cur st = (Ret p, st) ->
    is_chain (disk_link (fst st)) p l ->
    (forall x, x ∈ l -> is_Some (disks (snd st) !! x)) ->
    (length l < fuel)%nat ->
    disk_walk fuel cur st = (Ret l, st).
Proof.
  induction l as [|x l IH]; intros fuel st cur p Hnext Hl Hlive Hfuel;
    (destruct fuel as [|fuel]; [simpl in Hfuel; lia|]);
    cbn [disk_walk]; rewrite Hnext; cbn [is_chain] in Hl.
  - now subst p.
  - destruct Hl as [-> Hl].
    destruct (disk_link (fst st) !! x) as [n|] eqn:Hx; [|contradiction].
    destruct (Hlive x ltac:(left)) as [dx Hdx].
    rewrite (IH fuel st (Some x) n); [reflexivity| |exact Hl| |simpl in Hfuel; lia].
    + cbn [disk_next]. now rewrite Hdx, Hx.
    + intros y Hy. apply Hlive. now right.
Qed.

(** Starting from [NULL] and calling [disk_next] until it returns [NULL]
    visits the registered disks, each once, in list order, and changes
    nothing. *)
Theorem disk_next_walk st l :
  is_chain (disk_link (fst st)) (disk_first (fst st)) l ->
  (forall x, x ∈ l -> is_Some (disks (snd st) !! x)) ->
  disk_walk (S (size (disk_link (fst st)))) None st = (Ret l, st).
Proof.
  intros Hl Hlive. apply (disk_walk_from l _ st None (disk_first (fst st))); auto.
  pose proof (is_chain_bound _ _ _ Hl). lia.
Qed.

(** [disk_remove] does nothing for [NULL] and nothing while the registry
    is empty.  With a non-empty registry it frees the disk, whatever
    [slist_del] found, and stops there: no partition is freed and no mount
    unregistered, so the partitions of the disk stay on the heap and keep
    pointing to the freed disk. *)
Theorem disk_remove_keeps_partitions st a d :
  disks (snd st) !! a = Some d ->
  disk_remove slist_del None st = (Ret tt, st) /\
  match disk_first (fst st) with
  | None => disk_remove slist_del (Some a) st = (Ret tt, st)
  | Some _ =>
      exists st',
        disk_remove slist_del (Some a) st = (Ret tt, st') /\
        disks (snd st') !! a = None /\
        (forall b, b <> a -> disks (snd st') !! b = disks (snd st) !! b) /\
        parts (snd st') = parts (snd st) /\
        vfs_list (snd st') = vfs_list (snd st)
  end.
Proof.
  intros Hd. split; [reflexivity|]. unfold disk_remove.
  destruct (disk_first (fst st)) as [f|]; [|reflexivity].
  rewrite Hd. eexists. split; [reflexivity|]. cbn [fst snd].
  split_and!; try reflexivity.
  - cbn. apply lookup_delete_eq.
  - intros b Hb. cbn. now rewrite lookup_delete_ne by congruence.
Qed.

End RegistryProps.

(** ** More worked scenarios *)


Lemma disk_do_size_first_failure_witness :
  __disk_do_size broken_port_do (Some 1%N) DISK_OP_READ 10 1300 (Some (Caller, 0)) sim_world =
  (Ret false,
   set_io (snd (broken_port_do (Some 7%N) DISK_OP_READ 10 1 (Some (Caller, 0 + 0)) sim_io))
          (logged (EvRaw DISK_OP_READ 10 1 (Some (Caller, 0 + 0))) sim_world)).
Proof.
  apply (disk_do_size_first_failure broken_port_do sim_world 1%N sim_disk
           DISK_OP_READ 10 1300 Caller 0).
  - reflexivity.
  - reflexivity.
  - simpl. lia.
  - vm_compute. discriminate.
  - reflexivity.
Defined.

Lemma disk_part_next_walk_witness :
  disk_part_walk (heap_bound sim_world2) (Some 1%N) None sim_world2 =
  (Ret [10%N; 20%N], sim_world2).
Proof.
  apply (disk_part_next_walk sim_world2 1%N
           (mk_disk DISK_CONTROLLER_AHCI (Some 7%N) 512 true (Some 10%N) 2)).
  - reflexivity.
  - vm_compute. auto.
Defined.

Lemma disk_part_add_no_memory_witness :
  disk_part_add null_vmm_alloc None 1 1 sim_world2 = (Ret None, sim_world2) /\
  disk_part_add null_vmm_alloc (Some 1%N) 1 1 sim_world2 = (Ret None, sim_world2).
Proof.
  apply (disk_part_add_no_memory null_vmm_alloc sim_world2 1%N
           (mk_disk DISK_CONTROLLER_AHCI (Some 7%N) 512 true (Some 10%N) 2) [10%N; 20%N]).
  - reflexivity.
  - vm_compute. auto.
  - reflexivity.
  - reflexivity.
Defined.

Lemma disk_part_add_unique_identities_witness :
  (exists r w' l',
     disk_part_add sim_vmm_alloc (Some 1%N) 1 1 sim_world2 = (Ret r, w') /\
     disk_list w' 1%N l' /\
     (l' = [10%N; 20%N] \/ exists n, r = Some n /\ l' = [10%N; 20%N] ++ [n]) /\
     (forall s z, (length (select (parts w') (disk_part_match s z) l') <= 1)%nat)) /\
  (let w' := snd (disk_part_add sim_vmm_alloc (Some 1%N) 1 1 sim_world2) in
   disk_list w' 1%N [10%N; 20%N; 21%N] /\
   select (parts w') (disk_part_match 1 1) [10%N; 20%N; 21%N] = [21%N] /\
   select (parts w') (disk_part_match 8192 1000) [10%N; 20%N; 21%N] = [20%N]) /\
  (let w' := snd (disk_part_add sim_vmm_alloc (Some 1%N) 8192 1000 sim_world2) in
   fst (disk_part_add sim_vmm_alloc (Some 1%N) 8192 1000 sim_world2) = Ret (Some 20%N) /\
   disk_list w' 1%N [10%N; 20%N] /\
   select (parts w') (disk_part_match 8192 1000) [10%N; 20%N] = [20%N]).
Proof.
  split.
  - apply (disk_part_add_unique_identities sim_vmm_alloc sim_world2 1%N [10%N; 20%N] 1 1).
    + vm_compute. auto.
    + intros s z.
      assert (H10 : parts sim_world2 !! 10%N =
                    Some (mk_part 2048 4096 true (Some 1%N) (Some 20%N))) by reflexivity.
      assert (H20 : parts sim_world2 !! 20%N =
                    Some (mk_part 8192 1000 true (Some 1%N) None)) by reflexivity.
      cbn [select]. rewrite H10, H20. unfold disk_part_match. cbn [part_start part_size].
      destruct (2048 =? s) eqn:E1; destruct (8192 =? s) eqn:E2;
        destruct (4096 =? z); destruct (1000 =? z); cbn; try lia.
      all: apply Z.eqb_eq in E1, E2; lia.
    + intros n Hn. vm_compute in Hn. injection Hn as <-. reflexivity.
  - split; vm_compute; repeat split; reflexivity.
Defined.

Lemma disk_part_add_keeps_existing_witness :
  exists r w',
    disk_part_add sim_vmm_alloc (Some 1%N) 1 1 sim_world2 = (Ret r, w') /\
    (forall x p, parts sim_world2 !! x = Some p ->
       exists p', parts w' !! x = Some p' /\ same_partition p p') /\
    (forall b, b <> 1%N -> disks w' !! b = disks sim_world2 !! b) /\
    vfs_list w' = vfs_list sim_world2 /\ io w' = io sim_world2 /\
    trace w' = trace sim_world2.
Proof.
  apply (disk_part_add_keeps_existing sim_vmm_alloc sim_world2 1%N
           (mk_disk DISK_CONTROLLER_AHCI (Some 7%N) 512 true (Some 10%N) 2) [10%N; 20%N]).
  - reflexivity.
  - vm_compute. auto.
  - intros n Hn. vm_compute in Hn. injection Hn as <-. reflexivity.
Defined.

Lemma disk_part_block_clears_witness :
  __disk_part_block None sim_world2 = (Ret tt, sim_world2) /\
  exists w',
    __disk_part_block (Some 1%N) sim_world2 = (Ret tt, w') /\
    disks w' = disks sim_world2 /\ vfs_list w' = vfs_list sim_world2 /\
    io w' = io sim_world2 /\ trace w' = trace sim_world2 /\
    is_list (parts w') (Some 10%N) [10%N; 20%N] /\
    (forall x, x ∈ [10%N; 20%N] ->
       parts w' !! x = set_part_available false <$> parts sim_world2 !! x /\
       flag_of (parts w') x = false) /\
    (forall x, x ∉ [10%N; 20%N] -> parts w' !! x = parts sim_world2 !! x).
Proof.
  apply (disk_part_block_clears sim_world2 1%N
           (mk_disk DISK_CONTROLLER_AHCI (Some 7%N) 512 true (Some 10%N) 2) [10%N; 20%N]).
  - reflexivity.
  - vm_compute. auto.
Defined.

Lemma disk_part_clear_steady_witness :
  disk_part_clear (Some 1%N) sim_world2 = (Ret tt, sim_world2).
Proof.
  apply (disk_part_clear_steady sim_world2 1%N
           (mk_disk DISK_CONTROLLER_AHCI (Some 7%N) 512 true (Some 10%N) 2) [10%N; 20%N]).
  - reflexivity.
  - vm_compute. auto.
  - repeat constructor; vm_compute; eauto.
Defined.

Lemma disk_part_clear_none_flagged_witness :
  exists w' d',
    disk_part_clear (Some 1%N) sim_world2_blocked = (Ret tt, w') /\
    disks w' !! 1%N = Some d' /\
    disk_parts d' = None /\
    disk_part_count d' = 2 - Z.of_nat (length [10%N; 20%N]) /\
    (forall x, x ∈ [10%N; 20%N] -> parts w' !! x = None) /\
    (forall x, x ∉ [10%N; 20%N] -> parts w' !! x = parts sim_world2_blocked !! x).
Proof.
  apply (disk_part_clear_none_flagged sim_world2_blocked 1%N
           (mk_disk DISK_CONTROLLER_AHCI (Some 7%N) 512 true (Some 10%N) 2) [10%N; 20%N]).
  - reflexivity.
  - vm_compute. auto.
  - repeat constructor.
Defined.

Lemma disk_part_add_then_clear_witness :
  exists w1 w2,
    disk_part_add sim_vmm_alloc (Some 1%N) 1 1 sim_world2 = (Ret (Some 21%N), w1) /\
    disk_part_clear (Some 1%N) w1 = (Ret tt, w2) /\
    parts w2 !! 21%N = None /\
    disk_list w2 1%N (select (parts sim_world2) part_available [10%N; 20%N]) /\
    count_of w2 1%N =
      Some (2 - Z.of_nat (length [10%N; 20%N] -
                          length (select (parts sim_world2) part_available [10%N; 20%N]))).
Proof.
  apply (disk_part_add_then_clear sim_vmm_alloc sim_world2 1%N
           (mk_disk DISK_CONTROLLER_AHCI (Some 7%N) 512 true (Some 10%N) 2)
           [10%N; 20%N] 1 1 21%N).
  - reflexivity.
  - vm_compute. auto.
  - reflexivity.
  - reflexivity.
  - reflexivity.
Defined.

Lemma disk_scan_parse_failure_witness :
  let d := mk_disk DISK_CONTROLLER_AHCI (Some 7%N) 512 true (Some 10%N) 2 in
  let w2 := snd (disk_do (sim_port_do 100) (Some 1%N) DISK_OP_INFO 0 0 None
                   (scan_marked 1%N d [10%N; 20%N] sim_world2)) in
  disk_scan (sim_port_do 100) true sim_no_table sim_no_table (Some 1%N) sim_world2 =
    (Ret false, w2) /\
  (disks w2 = disks w2 -> disks w2 !! 1%N = Some (set_disk_available false d)).
Proof.
  intros d w2.
  apply (disk_scan_parse_failure (sim_port_do 100) true sim_no_table sim_no_table
           sim_world2 1%N d [10%N; 20%N] w2 w2).
  - reflexivity.
  - vm_compute. auto.
  - vm_compute. reflexivity.
  - vm_compute. reflexivity.
Defined.

Lemma disk_scan_success_witness :
  let port := sim_port_do 100 in
  let mbr := sim_table_load [(2048, 4096); (100, 50)] in
  let d := mk_disk DISK_CONTROLLER_AHCI (Some 7%N) 512 true (Some 10%N) 2 in
  let w2 := snd (disk_do port (Some 1%N) DISK_OP_INFO 0 0 None
                   (scan_marked 1%N d [10%N; 20%N] sim_world2)) in
  let w3 := snd (disk_scan_parse false sim_no_table mbr (Some 1%N) w2) in
  let d3 := mk_disk DISK_CONTROLLER_AHCI (Some 7%N) 512 false (Some 10%N) 3 in
  let l3 := [10%N; 20%N; 21%N] in
  exists w4 d4,
    disk_scan port false sim_no_table mbr (Some 1%N) sim_world2 = (Ret true, w4) /\
    disks w4 !! 1%N = Some d4 /\
    disk_available d4 = true /\
    is_list (parts w4) (disk_parts d4) (select (parts w3) part_available l3) /\
    disk_part_count d4 =
      disk_part_count d3 - Z.of_nat (length l3 - length (select (parts w3) part_available l3)) /\
    (forall x, x ∈ l3 -> flag_of (parts w3) x = false -> parts w4 !! x = None) /\
    (forall x, x ∉ l3 -> parts w4 !! x = parts w3 !! x) /\
    vfs_list w4 = clear_vfs (parts w3) l3 (vfs_list w3) /\
    trace w4 = trace w3 ++ clear_events (parts w3) l3 (vfs_list w3).
Proof.
  intros port mbr d w2 w3 d3 l3.
  apply (disk_scan_success port false sim_no_table mbr sim_world2 1%N d [10%N; 20%N] w2 w3 d3 l3).
  - reflexivity.
  - vm_compute. auto.
  - vm_compute. reflexivity.
  - vm_compute. reflexivity.
  - vm_compute. reflexivity.
  - vm_compute. auto.
Defined.


Lemma disk_add_registers_witness :
  exists st',
    disk_add sim_vmm_alloc_disk DISK_CONTROLLER_AHCI (Some 8%N) sim_kernel =
      (Ret (Some 2%N), st') /\
    disks (snd st') !! 2%N = Some (mk_disk DISK_CONTROLLER_AHCI (Some 8%N) 512 false None 0) /\
    part_count_is (snd st') 2%N [] /\
    is_chain (disk_link (fst st')) (disk_first (fst st')) ([1%N] ++ [2%N]) /\
    (forall b, b <> 2%N -> disks (snd st') !! b = disks (snd sim_kernel) !! b) /\
    parts (snd st') = parts (snd sim_kernel) /\
    vfs_list (snd st') = vfs_list (snd sim_kernel).
Proof.
  apply (disk_add_registers sim_vmm_alloc_disk sim_kernel DISK_CONTROLLER_AHCI (Some 8%N)
           2%N [1%N]).
  - eexists. reflexivity.
  - reflexivity.
  - reflexivity.
  - reflexivity.
  - vm_compute. auto.
Defined.

Lemma disk_next_walk_witness :
  disk_walk (S (size (disk_link (fst sim_kernel)))) None sim_kernel = (Ret [1%N], sim_kernel).
Proof.
  apply (disk_next_walk sim_kernel [1%N]).
  - vm_compute. auto.
  - intros x Hx. apply elem_of_cons in Hx as [->|Hx]; [eexists; reflexivity | inversion Hx].
Defined.

Lemma disk_remove_keeps_partitions_witness :
  disk_remove sim_slist_del None sim_kernel2 = (Ret tt, sim_kernel2) /\
  exists st',
    disk_remove sim_slist_del (Some 1%N) sim_kernel2 = (Ret tt, st') /\
    disks (snd st') !! 1%N = None /\
    (forall b, b <> 1%N -> disks (snd st') !! b = disks (snd sim_kernel2) !! b) /\
    parts (snd st') = parts (snd sim_kernel2) /\
    vfs_list (snd st') = vfs_list (snd sim_kernel2).
Proof.
  apply (disk_remove_keeps_partitions sim_slist_del sim_kernel2 1%N
           (mk_disk DISK_CONTROLLER_AHCI (Some 7%N) 512 true (Some 10%N) 2)).
  reflexivity.
Defined.

(** ** The copy of the partial sector, and the mount lookup *)

Section TailBytes.

Variable ahci_port_do :
  option ptr -> disk_op_t -> Z -> Z -> bufptr -> iomem -> bool * iomem.

(** When the whole-sector part of an unaligned transfer reaches [do_copy],
    the offset it has reached is [size - size mod sector_size]. *)
Lemma disk_do_size_whole_offset w a d op lba size buf off w1 :
  disks w !! a = Some d ->
  0 < disk_sector_size d ->
  0 <= size < 2 ^ 64 ->
  disk_do_size_whole ahci_port_do (Some a) op lba size buf
    (size / disk_sector_size d) (size mod disk_sector_size d) w = (Ret (Some off), w1) ->
  off = size - size mod disk_sector_size d.
Proof.
  intros Hd Hss Hsize. set (ss := disk_sector_size d) in *.
  pose proof (Z.mod_pos_bound size ss Hss) as Hbound.
  pose proof (Z.div_mod size ss ltac:(lia)) as Hdm.
  assert (Hq : 0 <= size / ss) by (apply Z.div_pos; lia).
  unfold disk_do_size_whole.
  rewrite (bind_ret_l _ _ _ _ _ (load_disk_some _ _ _ Hd)). fold ss.
  destruct (size <? ss) eqn:Hlt.
  - apply Z.ltb_lt in Hlt. intros [= <- _]. rewrite (Z.mod_small size ss); lia.
  - apply Z.ltb_ge in Hlt.
    destruct (disk_do_size_loop_run ahci_port_do (Z.to_nat (size / ss))
                (S (Z.to_nat (size / ss)))
                w a d op lba (size mod ss) buf size 0 Hd Hss)
      as (oc & w' & j & Hrun & Ho & _); fold ss; try lia.
    fold ss in Hrun, Ho. rewrite Hrun. intros [= -> _].
    destruct Ho as [Ho|[Ho|Ho]]; [discriminate| |discriminate].
    injection Ho as ->. lia.
Qed.

(** An unaligned transfer of [size] bytes (below 2^64) whose whole-sector
    part reaches [do_copy] with the offset [off], and whose raw call on
    the local array returns: [off] is [size - size mod sector_size], the
    function returns what that raw call returned, and the copy that
    follows writes exactly the [size mod sector_size] bytes of the
    caller's buffer from offset [size - size mod sector_size] on: they
    hold the first bytes of the local array, and every other byte of
    memory is as the raw call left it. *)
Theorem disk_do_size_tail_bytes w a d op lba size r o off b w1 w2 :
  disks w !! a = Some d ->
  0 < disk_sector_size d ->
  0 <= size < 2 ^ 64 ->
  size mod disk_sector_size d <> 0 ->
  disk_do_size_whole ahci_port_do (Some a) op lba size (Some (r, o))
    (size / disk_sector_size d) (size mod disk_sector_size d) w = (Ret (Some off), w1) ->
  __disk_do_raw ahci_port_do (Some a) op lba 1 (Some (Scratch, 0)) w1 = (Ret b, w2) ->
  off = size - size mod disk_sector_size d /\
  exists w',
    __disk_do_size ahci_port_do (Some a) op lba size (Some (r, o)) w = (Ret b, w') /\
    (forall i, 0 <= i < size mod disk_sector_size d ->
       io w' r (o + (size - size mod disk_sector_size d) + i) = io w2 Scratch i) /\
    (forall i, i < o + (size - size mod disk_sector_size d) \/ o + size <= i ->
       io w' r i = io w2 r i) /\
    (forall r' i, r' <> r -> io w' r' i = io w2 r' i).
Proof.
  intros Hd Hss Hsize Hrem Hwhole Hraw.
  pose proof (disk_do_size_whole_offset _ _ _ _ _ _ _ _ _ Hd Hss Hsize Hwhole) as Hoff.
  split; [exact Hoff|]. subst off.
  eexists. split; [|split; [|split]].
  - unfold __disk_do_size.
    rewrite (bind_ret_l _ _ _ _ _ (load_disk_some _ _ _ Hd)).
    unfold div_floor, umod.
    replace (disk_sector_size d =? 0) with false by (symmetry; apply Z.eqb_neq; lia).
    unfold bind at 1, ret at 1. unfold bind at 1, ret at 1.
    replace (size mod disk_sector_size d =? 0) with false by (symmetry; now apply Z.eqb_neq).
    rewrite (bind_ret_l _ _ _ _ _ Hwhole).
    apply (disk_do_size_copy_run _ _ _ _ _ _ _ _ _ _ _ Hrem Hraw).
  - intros i Hi. cbn.
    apply (copy_bytes_inside r (o + (size - size mod disk_sector_size d)) Scratch 0). exact Hi.
  - intros i Hi. cbn. apply copy_bytes_outside. right. lia.
  - intros r' i Hr. cbn. apply copy_bytes_outside. now left.
Qed.

End TailBytes.

(** [__disk_part_find_vfs] returns a mount only if it is a disk mount of
    that very partition, and returns [NULL] only if the registry holds no
    disk mount of the partition. *)
Theorem disk_part_find_vfs_sound (part : ptr) (w : world) :
  match find_vfs part (vfs_list w) with
  | Some h =>
      __disk_part_find_vfs part w = (Ret (Some h), w) /\
      exists v, (h, v) ∈ vfs_list w /\
                vfs_type v = VFS_TYPE_DISK /\ vfs_type_data v = Some part
  | None =>
      __disk_part_find_vfs part w = (Ret None, w) /\
      forall h v, (h, v) ∈ vfs_list w ->
                  ~ (vfs_type v = VFS_TYPE_DISK /\ vfs_type_data v = Some part)
  end.
Proof.
  unfold __disk_part_find_vfs. generalize (vfs_list w) as vs.
  induction vs as [|[h v] vs IH]; cbn [find_vfs].
  - split; [reflexivity|]. intros h v Hin. inversion Hin.
  - destruct (decide (vfs_type v = VFS_TYPE_DISK /\ vfs_type_data v = Some part)) as [Hv|Hv].
    + split; [reflexivity|]. exists v. split; [left | exact Hv].
    + destruct (find_vfs part vs) as [h'|].
      * destruct IH as [_ (v' & Hin & Hv')]. split; [reflexivity|].
        exists v'. split; [now right | exact Hv'].
      * destruct IH as [_ Hnone]. split; [reflexivity|].
        intros h' v' [Heq|Hin]%elem_of_cons; [congruence | now apply (Hnone h' v')].
Qed.

Lemma disk_do_size_tail_bytes_witness :
  let port := sim_port_do 100 in
  let w1 := snd (disk_do_size_whole port (Some 1%N) DISK_OP_READ 10 1300 (Some (Caller, 0))
                   (1300 / 512) (1300 mod 512) sim_world) in
  let w2 := snd (__disk_do_raw port (Some 1%N) DISK_OP_READ 10 1 (Some (Scratch, 0)) w1) in
  (1024 = 1300 - 1300 mod 512 /\
   exists w',
     __disk_do_size port (Some 1%N) DISK_OP_READ 10 1300 (Some (Caller, 0)) sim_world =
       (Ret true, w') /\
     (forall i, 0 <= i < 1300 mod 512 ->
        io w' Caller (0 + (1300 - 1300 mod 512) + i) = io w2 Scratch i) /\
     (forall i, i < 0 + (1300 - 1300 mod 512) \/ 0 + 1300 <= i ->
        io w' Caller i = io w2 Caller i) /\
     (forall r' i, r' <> Caller -> io w' r' i = io w2 r' i)) /\
  (let w' := snd (__disk_do_size port (Some 1%N) DISK_OP_READ 10 1300 (Some (Caller, 0))
                    sim_world) in
   fst (disk_do_size_whole port (Some 1%N) DISK_OP_READ 10 1300 (Some (Caller, 0))
          (1300 / 512) (1300 mod 512) sim_world) = Ret (Some 1024) /\
   io w2 Scratch 0 = x00 /\
   io w' Caller 1023 = x00 /\ io w' Caller 1024 = x00 /\ io w' Caller 1299 = x00 /\
   io w' Caller 1300 = x01).
Proof.
  intros port w1 w2. split.
  - apply (disk_do_size_tail_bytes port sim_world 1%N sim_disk DISK_OP_READ 10 1300
             Caller 0 1024 true w1 w2).
    + reflexivity.
    + simpl. lia.
    + lia.
    + vm_compute. discriminate.
    + vm_compute. reflexivity.
    + vm_compute. reflexivity.
  - vm_compute. repeat split; reflexivity.
Defined.
